(** * LiquidPark AI agent: intent resolution and recommendation reconciliation

    A shallow embedding of the deterministic parts of the SuiPark agent
    backend ([app/main.py], [app/models.py], [app/services/ai_logic.py]):
    the start-hour validator, the clarification logic of [parse_intent],
    the bounded conversation context of [parse_user_intent] and the
    post-processing that [recommend_best_slot] applies to the ranking the
    language model returned.

    Modelling conventions.
    - A Python [str] is a [string] whose characters are code points below
      256.  In that range the decimal digits of [\d] are exactly ['0'..'9']
      and the characters removed by [str.strip()] are those of [is_space].
    - A Python [float] that is only stored and compared (scores, prices) is
      a rational [Qc]; [int] is [Z]; [len] is a [nat].
    - The JSON object returned by the language model is a record whose
      fields have the types of the schema sent with the prompt; a key read
      with [dict.get] is an [option], [None] standing for the absent key
      (and, for a key read without a default, for a null value).
    - The wall clock read by [datetime.now()] and the value returned by the
      language model are parameters of the functions that use them.
    - An exception that leaves a function is an [outcome] other than [Ok]. *)

From Stdlib Require Import Ascii QArith Qcanon.
From stdpp Require Import base numbers list strings gmap sorting.

Local Open Scope string_scope.
Local Open Scope Z_scope.

(** ** Python strings *)

Definition nl : string := String (Ascii.ascii_of_nat 10) "".

Definition is_digit (c : ascii) : bool :=
  let n := Ascii.nat_of_ascii c in ((48 <=? n) && (n <=? 57))%nat.

(** [str.isspace] on the code points below 256. *)
Definition is_space (c : ascii) : bool :=
  let n := Ascii.nat_of_ascii c in
  (((9 <=? n) && (n <=? 13)) || ((28 <=? n) && (n <=? 32))
   || (n =? 133) || (n =? 160))%nat.

Fixpoint lstrip (s : string) : string :=
  match s with
  | "" => ""
  | String c r => if is_space c then lstrip r else s
  end.

Fixpoint rstrip (s : string) : string :=
  match s with
  | "" => ""
  | String c r =>
      match rstrip r with
      | "" => if is_space c then "" else String c ""
      | r' => String c r'
      end
  end.

(** [s.strip()] *)
Definition strip (s : string) : string := rstrip (lstrip s).

(** [s == ""] *)
Definition is_empty (s : string) : bool :=
  match s with "" => true | _ => false end.

(** Truth value of an optional string: [None] and [""] are false. *)
Definition truthy (o : option string) : bool :=
  match o with Some s => negb (is_empty s) | None => false end.

(** [s.split(sep)] for a one-character separator. *)
Fixpoint split (sep : ascii) (s : string) : list string :=
  match s with
  | "" => [""]
  | String c r =>
      if Ascii.eqb c sep then "" :: split sep r
      else match split sep r with
           | p :: ps => String c p :: ps
           | [] => [String c ""]
           end
  end.

Fixpoint all_digits (s : string) : bool :=
  match s with
  | "" => true
  | String c r => is_digit c && all_digits r
  end.

Fixpoint digits_value (acc : Z) (s : string) : Z :=
  match s with
  | "" => acc
  | String c r => digits_value (10 * acc + (Z.of_nat (Ascii.nat_of_ascii c) - 48)) r
  end.

(** [int(s)] on unsigned decimal literals, surrounding white space allowed;
    [None] stands for [ValueError]. *)
Definition py_int (s : string) : option Z :=
  let t := strip s in
  if negb (is_empty t) && all_digits t then Some (digits_value 0 t) else None.

(** [re.match(r'^\d{2}:\d{2}$', s)]: [$] also matches just before a final
    newline. *)
Definition matches_HHmm (s : string) : bool :=
  match s with
  | String a (String b (String sep (String c (String d rest)))) =>
      is_digit a && is_digit b && Ascii.eqb sep ":" && is_digit c && is_digit d
      && (String.eqb rest "" || String.eqb rest nl)
  | _ => false
  end.

(** [needle in hay] *)
Fixpoint contains (needle hay : string) : bool :=
  String.prefix needle hay
  || match hay with "" => false | String _ r => contains needle r end.

(** ** Wall clock *)

Record Clock := { clock_hour : Z; clock_minute : Z }.

Definition digit_char (n : Z) : ascii := Ascii.ascii_of_nat (48 + Z.to_nat n).

(** A number below 100 on two digits, as [%H] and [%M] print it. *)
Definition fmt2 (n : Z) : string :=
  String (digit_char (n / 10)) (String (digit_char (n mod 10)) "").

(** [current_time.strftime("%H:%M")] *)
Definition strftime_HM (now : Clock) : string :=
  fmt2 (clock_hour now) ++ ":" ++ fmt2 (clock_minute now).

(** ** [validate_start_hour] (app/main.py) *)

Definition format_error : string :=
  "Invalid time format. Please use HH:mm format (e.g., '14:30').".

Definition hour_error : string :=
  "Invalid hour. Hour must be between 00 and 23.".

Definition minute_error : string :=
  "Invalid minute. Minute must be between 00 and 59.".

Definition past_error (start_hour current_time_str : string) : string :=
  "The start time you provided (" ++ start_hour
  ++ ") is in the past. Please provide a valid start time for today (current time is "
  ++ current_time_str ++ ").".

(** [hour, minute = map(int, start_hour.split(':'))]; [None] stands for the
    [ValueError] of a failed conversion or unpacking. *)
Definition parse_hour_minute (start_hour : string) : option (Z * Z) :=
  match map py_int (split ":" start_hour) with
  | [Some hour; Some minute] => Some (hour, minute)
  | _ => None
  end.

Definition validate_start_hour (now : Clock) (start_hour : option string)
  : bool * option string :=
  match start_hour with
  | None => (true, None)
  | Some s =>
      if is_empty (strip s) then (true, None)
      else if negb (matches_HHmm s) then (false, Some format_error)
      else
        match parse_hour_minute s with
        | None => (false, Some format_error)
        | Some (hour, minute) =>
            if (hour <? 0) || (hour >? 23) then (false, Some hour_error)
            else if (minute <? 0) || (minute >? 59) then (false, Some minute_error)
            else
              let current_hour := clock_hour now in
              let current_minute := clock_minute now in
              if (hour <? current_hour)
                 || ((hour =? current_hour) && (minute <? current_minute))
              then (false, Some (past_error s (strftime_HM now)))
              else (true, None)
        end
  end.

(** ** Exceptions *)

Inductive exn :=
  | ValidationError            (* pydantic: a field constraint is violated *)
  | HTTPException (status_code : Z).

Inductive outcome (A : Type) :=
  | Ok (a : A)
  | Raise (e : exn).
Arguments Ok {A} a.
Arguments Raise {A} e.

(** ** Data model of the intent endpoint (app/models.py) *)

Record ConversationMessage := { text : string; is_user : bool }.

Record Preferences := {
  pref_covered : option bool;
  pref_safety_priority : option string;
  pref_accessibility : option bool;
  pref_other : option string
}.

(** The JSON object [result] that [parse_user_intent] returns.  The
    [preferences] entry is [None] when absent, null or an empty object;
    otherwise it holds what [prefs_dict.get] finds under the four keys. *)
Record RawIntentGuess := {
  g_location_query : option string;
  g_duration_minutes : option Z;
  g_start_hour : option string;
  g_max_price : option Qc;
  g_preferences : option Preferences;
  g_needs_clarification : option bool;
  g_clarification_message : option string;
  g_is_more_request : option bool;
  g_requested_radius_km : option Qc;
  g_is_closest_request : option bool;
  g_is_cheapest_request : option bool
}.

Record ParseIntentResponse := {
  location_query : string;
  duration_minutes : Z;
  start_hour : option string;
  max_price : option Qc;
  preferences : option Preferences;
  needs_clarification : option bool;
  clarification_message : option string;
  is_more_request : option bool;
  requested_radius_km : option Qc;
  is_closest_request : option bool;
  is_cheapest_request : option bool
}.

(** [Field(None, ge=0)] on an optional float. *)
Definition ge0_or_none (x : option Qc) : bool :=
  match x with
  | None => true
  | Some q => match (q ?= 0)%Qc with Lt => false | _ => true end
  end.

(** Construction of a [ParseIntentResponse]: the field constraints are
    checked ([duration_minutes >= 1], [max_price >= 0],
    [requested_radius_km >= 0]). *)
Definition ParseIntentResponse_init (r : ParseIntentResponse)
  : outcome ParseIntentResponse :=
  if (1 <=? duration_minutes r) && ge0_or_none (max_price r)
     && ge0_or_none (requested_radius_km r)
  then Ok r else Raise ValidationError.

Definition create_clarification_response (clarification_message : string)
  : outcome ParseIntentResponse :=
  ParseIntentResponse_init
    {| location_query := "";
       duration_minutes := 1;
       start_hour := None;
       max_price := None;
       preferences := None;
       needs_clarification := Some true;
       clarification_message := Some clarification_message;
       is_more_request := Some false;
       requested_radius_km := None;
       is_closest_request := Some false;
       is_cheapest_request := Some false |}.

(** ** [parse_intent] (app/main.py), after the language model answered *)

Definition msg_all_three : string :=
  "I'd be happy to help you find parking! Could you please tell me where you'd like to park, for how long, and what time you'd like to start? (e.g., 'at 14:30')".
Definition msg_location_duration : string :=
  "I'd be happy to help you find parking! Could you please tell me where you'd like to park and for how long?".
Definition msg_location_start : string :=
  "I'd be happy to help you find parking! Could you please tell me where you'd like to park and what time you'd like to start? (e.g., 'at 14:30')".
Definition msg_duration_start : string :=
  "I'd be happy to help you find parking! Could you please tell me for how long you need to park and what time you'd like to start? (e.g., 'at 14:30')".
Definition msg_location : string :=
  "I'd be happy to help you find parking! Could you please tell me where you'd like to park?".
Definition msg_duration : string :=
  "I'd be happy to help you find parking! Could you please tell me for how long you need to park?".
Definition msg_start : string :=
  "Perfect! What time would you like to start parking? (e.g., 'at 14:30' or 'at 2pm')".
Definition msg_generic : string :=
  "I need a bit more information to help you find parking. Could you please provide the location, duration, and start time?".

(** [duration_minutes is None or duration_minutes < 1] *)
Definition missing_duration (duration_minutes : option Z) : bool :=
  match duration_minutes with None => true | Some d => d <? 1 end.

(** [not location_query or location_query.strip() == ""] *)
Definition missing_location (location_query : option string) : bool :=
  match location_query with
  | None => true
  | Some s => is_empty s || is_empty (strip s)
  end.

(** [not start_hour or start_hour.strip() == ""] *)
Definition missing_start_hour (start_hour : option string) : bool :=
  match start_hour with
  | None => true
  | Some s => is_empty s || is_empty (strip s)
  end.

(** [start_hour and start_hour.strip()] as a condition *)
Definition start_hour_given (start_hour : option string) : bool :=
  match start_hour with
  | None => false
  | Some s => negb (is_empty s) && negb (is_empty (strip s))
  end.

(** The [elif] chain that synthesises a prompt from the missing fields. *)
Definition default_text (missing_location missing_duration missing_start_hour : bool)
  : string :=
  if missing_location && missing_duration && missing_start_hour then msg_all_three
  else if missing_location && missing_duration then msg_location_duration
  else if missing_location && missing_start_hour then msg_location_start
  else if missing_duration && missing_start_hour then msg_duration_start
  else if missing_location then msg_location
  else if missing_duration then msg_duration
  else if missing_start_hour then msg_start
  else msg_generic.

(** [if clarification_message: msg = clarification_message], else the chain. *)
Definition clarification_text (clarification_message : option string)
    (missing_location missing_duration missing_start_hour : bool) : string :=
  if truthy clarification_message then default "" clarification_message
  else default_text missing_location missing_duration missing_start_hour.

(** The body of the [try] block; the variables the source reassigns are
    threaded through as a tuple. *)
Definition parse_intent_body (now : Clock) (result : RawIntentGuess)
  : outcome ParseIntentResponse :=
  let needs_clarification0 := default false (g_needs_clarification result) in
  let clarification_message0 := g_clarification_message result in
  let is_more := default false (g_is_more_request result) in
  let duration := g_duration_minutes result in
  let location := g_location_query result in
  let start := g_start_hour result in
  let miss_duration := missing_duration duration in
  let miss_location := missing_location location in
  let miss_start0 := missing_start_hour start in
  let '(start_hour_valid, clarification_msg, needs, miss_start) :=
    if start_hour_given start then
      let '(valid, start_hour_error) := validate_start_hour now start in
      if negb valid then (valid, start_hour_error, true, miss_start0)
      else (valid, clarification_message0, needs_clarification0, miss_start0)
    else (false, clarification_message0, needs_clarification0, true) in
  if needs || miss_duration || miss_location || miss_start then
    create_clarification_response
      (clarification_text clarification_msg miss_location miss_duration miss_start)
  else
    let start' := if negb start_hour_valid then None else start in
    let location' := if truthy location then default "" location else "" in
    let duration' := if missing_duration duration then 60 else default 60 duration in
    ParseIntentResponse_init
      {| location_query := location';
         duration_minutes := duration';
         start_hour := if start_hour_valid then start' else None;
         max_price := g_max_price result;
         preferences := g_preferences result;
         needs_clarification := Some needs;
         clarification_message := clarification_msg;
         is_more_request := Some is_more;
         requested_radius_km := g_requested_radius_km result;
         is_closest_request := Some (default false (g_is_closest_request result));
         is_cheapest_request := Some (default false (g_is_cheapest_request result)) |}.

(** [except ValueError] gives status 400 (pydantic's [ValidationError] is a
    [ValueError]), any other exception status 500. *)
Definition parse_intent (now : Clock) (result : RawIntentGuess)
  : outcome ParseIntentResponse :=
  match parse_intent_body now result with
  | Ok response => Ok response
  | Raise ValidationError => Raise (HTTPException 400)
  | Raise _ => Raise (HTTPException 500)
  end.

(** The [try] block of [parse_intent] from the call of the language
    model on.  [generate_json] (app/services/gemini_client.py) turns every
    failure of that call into a [ValueError], which [parse_user_intent]
    lets through and [except ValueError] answers with status 400; [None]
    stands for that failure, [Some result] for the parsed answer. *)
Definition parse_intent_request (now : Clock) (answer : option RawIntentGuess)
  : outcome ParseIntentResponse :=
  match answer with
  | None => Raise (HTTPException 400)
  | Some result => parse_intent now result
  end.

(** ** Bounded conversation context of [parse_user_intent]
    (app/services/ai_logic.py) *)

Definition CONVERSATION_HISTORY_WINDOW : nat := 10.
Definition MAX_CONTEXT_LENGTH : nat := 2000.

(** [f"{role}: {text}\n"] *)
Definition msg_str (msg : ConversationMessage) : string :=
  (if is_user msg then "User" else "AI") ++ ": " ++ text msg ++ nl.

(** [l[-n:]] for [n > 0] *)
Definition last_n {A} (n : nat) (l : list A) : list A :=
  drop (length l - n) l.

(** The [for] loop with its [break]: [context_parts] and [total_length]
    are the loop state. *)
Fixpoint accumulate (msgs : list ConversationMessage)
    (context_parts : list string) (total_length : nat) : list string :=
  match msgs with
  | [] => context_parts
  | msg :: rest =>
      let s := msg_str msg in
      if (MAX_CONTEXT_LENGTH <? total_length + String.length s)%nat
      then context_parts
      else accumulate rest (context_parts ++ [s])%list
                      (total_length + String.length s)%nat
  end.

(** ["".join(parts)] *)
Definition join (parts : list string) : string :=
  foldr String.append "" parts.

(** The lines kept by the loop, in the order they are emitted. *)
Definition retained_lines (conversation_history : list ConversationMessage)
  : list string :=
  let recent_history := last_n CONVERSATION_HISTORY_WINDOW conversation_history in
  reverse (accumulate (reverse recent_history) [] 0%nat).

Definition context_header : string := nl ++ nl ++ "Previous conversation:" ++ nl.

Definition conversation_context (conversation_history : list ConversationMessage)
  : string :=
  match conversation_history with
  | [] => ""
  | _ =>
      match retained_lines conversation_history with
      | [] => ""
      | lines => context_header ++ join lines ++ nl
      end
  end.

(** ** Data model of the recommendation endpoint (app/models.py) *)

Record UserIntent := {
  ui_location_query : string;
  ui_duration_minutes : Z;
  ui_start_hour : option string;
  ui_max_price : option Qc;
  ui_preferences : option (list (string * string));
  ui_is_more_request : option bool;
  ui_requested_radius_km : option Qc;
  ui_is_closest_request : option bool;
  ui_is_cheapest_request : option bool
}.

Record ParkingSlot := {
  slot_id : string;
  lat : Qc;
  lng : Qc;
  price_per_hour : Qc;
  distance_m : Z;
  is_available : bool;
  address : option string;
  location_name : option string;
  covered : option bool;
  safety_rating : option Qc
}.

Record SlotRanking := { sr_slot_id : string; score : Qc }.

(** Construction of a [SlotRanking] from an entry of the returned ranking:
    [score] is declared [Field(..., ge=0, le=1)]. *)
Definition SlotRanking_init (item : string * Qc) : outcome SlotRanking :=
  let '(sid, sc) := item in
  match (sc ?= 0)%Qc, (sc ?= 1)%Qc with
  | Lt, _ => Raise ValidationError
  | _, Gt => Raise ValidationError
  | _, _ => Ok {| sr_slot_id := sid; score := sc |}
  end.

(** The JSON object [result] that the language model returns for a
    ranking request.  [best_slot_id], [ranking] and [explanation_for_user]
    are read with [result[...]], the other two with [result.get]. *)
Record RankingResult := {
  res_best_slot_id : string;
  res_recommended_slot_ids : option (list string);
  res_ranking : list (string * Qc);
  res_explanation_for_user : string;
  res_has_more_available : option bool
}.

Record RecommendSlotResponse := {
  best_slot_id : string;
  recommended_slot_ids : list string;
  ranking : list SlotRanking;
  explanation_for_user : string;
  has_more_available : option bool
}.

(** ** Python list and dict helpers *)

(** [[f(x) for x in l]] where [f] may raise: the first exception wins. *)
Fixpoint map_outcome {A B} (f : A -> outcome B) (l : list A) : outcome (list B) :=
  match l with
  | [] => Ok []
  | x :: r =>
      match f x with
      | Raise e => Raise e
      | Ok y => match map_outcome f r with
                | Raise e => Raise e
                | Ok ys => Ok (y :: ys)
                end
      end
  end.

(** [{k(x): v(x) for x in l}]: a later entry replaces an earlier one. *)
Definition dict_of {A V} (k : A -> string) (v : A -> V) (l : list A)
  : gmap string V :=
  foldl (fun m x => <[k x := v x]> m) ∅ l.

(** [sid in l] *)
Definition mem (sid : string) (l : list string) : bool := bool_decide (sid ∈ l).

(** [[sid for sid in l if sid != x]] *)
Definition without (x : string) (l : list string) : list string :=
  filter (fun sid => sid ≠ x) l.

(** [l and l[0] != x] *)
Definition head_differs (l : list string) (x : string) : bool :=
  match l with
  | [] => false
  | y :: _ => negb (String.eqb y x)
  end.

(** Order of the sort keys, tuples [(float, int)] compared
    lexicographically. *)
Definition key_lt (a b : Qc * Z) : bool :=
  match (a.1 ?= b.1)%Qc with
  | Lt => true
  | Eq => a.2 <? b.2
  | Gt => false
  end.

Section Sort.
Context {A : Type} (key : A -> Qc * Z).

(** Insertion in front of the first element whose key is not smaller. *)
Fixpoint insert_by_key (x : A) (l : list A) : list A :=
  match l with
  | [] => [x]
  | y :: r => if key_lt (key y) (key x) then y :: insert_by_key x r
              else x :: y :: r
  end.

(** [l.sort(key=key)]: ascending and stable. *)
Definition py_sort (l : list A) : list A := foldr insert_by_key [] l.

(** [l.sort(key=key, reverse=True)]: the list is reversed, sorted
    ascending and reversed again, so equal keys keep their order. *)
Definition py_sort_reverse (l : list A) : list A :=
  reverse (py_sort (reverse l)).
End Sort.

(** ** [recommend_best_slot] (app/services/ai_logic.py), after the
    language model answered *)

Definition flag (o : option bool) : bool := default false o.

(** The key of the [lambda] given to [sort]. *)
Definition fallback_key (ranking_dict : gmap string Qc)
    (slot_dict : gmap string ParkingSlot) (sid : string) : Qc * Z :=
  (default 0%Qc (ranking_dict !! sid),
   match slot_dict !! sid with
   | Some slot => - distance_m slot
   | None => 999999
   end).

(** [[best] + [sid for sid in l if sid != best]] *)
Definition best_first (best : string) (l : list string) : list string :=
  best :: without best l.

(** Lines 306-309: [if not recommended_slot_ids or best not in
    recommended_slot_ids], put [best] in front. *)
Definition ensure_best (best : string) (recommended_slot_ids : list string)
  : list string :=
  if (length recommended_slot_ids =? 0)%nat
     || negb (mem best recommended_slot_ids)
  then best_first best recommended_slot_ids
  else recommended_slot_ids.

(** Lines 327-328 and 333-334: [if recommended_slot_ids and
    recommended_slot_ids[0] != best], put [best] in front. *)
Definition move_best_first (best : string) (recommended_slot_ids : list string)
  : list string :=
  if head_differs recommended_slot_ids best
  then best_first best recommended_slot_ids
  else recommended_slot_ids.

(** [[sid for sid in all_slot_ids if sid not in recommended_slot_ids]] *)
Definition missing_slot_ids (all_slot_ids recommended_slot_ids : list string)
  : list string :=
  filter (fun sid => sid ∉ recommended_slot_ids) all_slot_ids.

(** Lines 315-325: when fewer ids are recommended than there are slots,
    the missing ones are sorted and appended. *)
Definition backfill (slots : list ParkingSlot) (ranking : list SlotRanking)
    (recommended_slot_ids : list string) : list string :=
  let slot_dict := dict_of slot_id id slots in
  let all_slot_ids := map slot_id slots in
  if (length recommended_slot_ids <? length all_slot_ids)%nat then
    let ranking_dict := dict_of sr_slot_id score ranking in
    (recommended_slot_ids
     ++ py_sort_reverse (fallback_key ranking_dict slot_dict)
          (missing_slot_ids all_slot_ids recommended_slot_ids))%list
  else recommended_slot_ids.

(** Lines 312-341: the branch on the request type. *)
Definition adjust_for_request
    (is_more_request is_closest_request is_cheapest_request : bool)
    (slots : list ParkingSlot) (ranking : list SlotRanking)
    (best : string) (recommended_slot_ids : list string) : list string :=
  if is_more_request then
    move_best_first best (backfill slots ranking recommended_slot_ids)
  else if is_closest_request || is_cheapest_request then
    move_best_first best recommended_slot_ids
  else
    if (10 <? length recommended_slot_ids)%nat
    then take 10 recommended_slot_ids
    else recommended_slot_ids.

Definition recommend_best_slot (user_intent : UserIntent)
    (slots : list ParkingSlot) (result : RankingResult)
  : outcome RecommendSlotResponse :=
  let is_more_request := flag (ui_is_more_request user_intent) in
  let is_closest_request := flag (ui_is_closest_request user_intent) in
  let is_cheapest_request := flag (ui_is_cheapest_request user_intent) in
  match map_outcome SlotRanking_init (res_ranking result) with
  | Raise e => Raise e
  | Ok ranking =>
      let best := res_best_slot_id result in
      let recommended_slot_ids :=
        ensure_best best (default [] (res_recommended_slot_ids result)) in
      Ok {| best_slot_id := best;
            recommended_slot_ids :=
              adjust_for_request is_more_request is_closest_request
                is_cheapest_request slots ranking best recommended_slot_ids;
            ranking := ranking;
            explanation_for_user := res_explanation_for_user result;
            has_more_available :=
              Some (default false (res_has_more_available result)) |}
  end.

(** [recommend_slot] (app/main.py): the endpoint around
    [recommend_best_slot]. *)
Definition recommend_slot (user_intent : UserIntent)
    (slots : list ParkingSlot) (result : RankingResult)
  : outcome RecommendSlotResponse :=
  match recommend_best_slot user_intent slots result with
  | Ok response => Ok response
  | Raise ValidationError => Raise (HTTPException 400)
  | Raise _ => Raise (HTTPException 500)
  end.

(** The four request modes, by the priority of the [if]/[elif] chain. *)
Inductive Mode := Normal | More | Closest | Cheapest.

Definition mode_of (user_intent : UserIntent) : Mode :=
  if flag (ui_is_more_request user_intent) then More
  else if flag (ui_is_closest_request user_intent) then Closest
  else if flag (ui_is_cheapest_request user_intent) then Cheapest
  else Normal.

(** ** Test data *)

Definition mk_slot (sid : string) (d : Z) : ParkingSlot :=
  {| slot_id := sid; lat := 0%Qc; lng := 0%Qc; price_per_hour := 0%Qc;
     distance_m := d; is_available := true; address := None;
     location_name := None; covered := None; safety_rating := None |}.

Definition mk_intent (more closest cheapest : bool) : UserIntent :=
  {| ui_location_query := "FSEGA"; ui_duration_minutes := 120;
     ui_start_hour := Some "18:55"; ui_max_price := None;
     ui_preferences := None; ui_is_more_request := Some more;
     ui_requested_radius_km := None; ui_is_closest_request := Some closest;
     ui_is_cheapest_request := Some cheapest |}.

Definition mk_result (best : string) (rec : list string)
    (rk : list (string * Qc)) : RankingResult :=
  {| res_best_slot_id := best; res_recommended_slot_ids := Some rec;
     res_ranking := rk; res_explanation_for_user := "ok";
     res_has_more_available := None |}.

Definition recommended (o : outcome RecommendSlotResponse) : option (list string) :=
  match o with Ok r => Some (recommended_slot_ids r) | Raise _ => None end.

Definition two_slots : list ParkingSlot := [mk_slot "s1" 150; mk_slot "s2" 350].

(** ** Geocoding (app/services/maps_client.py and [geocode_location] of
    app/main.py), after the HTTP exchange *)

(** The JSON body of the geocoding service.  A key read with [d[k]] is an
    [option] too: [None] is the absent key, on which Python raises
    [KeyError]. *)
Record GeoLatLng := { geo_lat : option Qc; geo_lng : option Qc }.

Record GeoGeometry := { geo_location : option GeoLatLng }.

Record GeoResult := {
  geo_geometry : option GeoGeometry;
  geo_formatted_address : option string
}.

Record GeoData := {
  geo_status : option string;
  geo_error_message : option string;
  geo_results : option (list GeoResult)
}.

(** What the HTTP exchange gives: an [httpx.HTTPError] (transport failure
    or error status), a body that [response.json()] cannot decode, or a
    decoded body.  The strings are the texts of the exceptions. *)
Inductive HttpReply :=
  | TransportError (e : string)
  | DecodeError (e : string)
  | JsonBody (data : GeoData).

Record GeocodeAnswer := {
  ans_lat : Qc;
  ans_lng : Qc;
  ans_formatted_address : string
}.

(** [f"{x}"] for an optional string *)
Definition py_str (o : option string) : string := default "None" o.

(** [str(KeyError(k))] *)
Definition key_error (k : string) : string := "'" ++ k ++ "'".

Definition denied_message (error_msg : string) : string :=
  "Geocoding API access denied. Please ensure:" ++ nl
  ++ "1. Geocoding API is enabled in Google Cloud Console" ++ nl
  ++ "2. Your API key has the correct permissions" ++ nl
  ++ "3. Billing is enabled on your Google Cloud project" ++ nl
  ++ "Error details: " ++ error_msg.

(** The statements of the [try] block that follow [response.json()]; [inl]
    carries the text of the exception raised there ([ValueError] or
    [KeyError]). *)
Definition geocode_body (location_query : string) (data : GeoData)
  : string + GeocodeAnswer :=
  let status := geo_status data in
  if negb (bool_decide (status = Some "OK")) then
    let error_msg :=
      default "Unknown geocoding error" (geo_error_message data) in
    if bool_decide (status = Some "REQUEST_DENIED") then
      inl (denied_message error_msg)
    else if bool_decide (status = Some "OVER_QUERY_LIMIT") then
      inl ("Geocoding API quota exceeded. " ++ error_msg)
    else if bool_decide (status = Some "INVALID_REQUEST") then
      inl ("Invalid geocoding request. " ++ error_msg)
    else inl ("Geocoding failed: " ++ py_str status ++ " - " ++ error_msg)
  else
    match default [] (geo_results data) with
    | [] => inl ("No geocoding results found for: " ++ location_query)
    | result :: _ =>
        match geo_geometry result with
        | None => inl (key_error "geometry")
        | Some geometry =>
            match geo_location geometry with
            | None => inl (key_error "location")
            | Some location =>
                match geo_lat location with
                | None => inl (key_error "lat")
                | Some lat =>
                    match geo_lng location with
                    | None => inl (key_error "lng")
                    | Some lng =>
                        match geo_formatted_address result with
                        | None => inl (key_error "formatted_address")
                        | Some a =>
                            inr {| ans_lat := lat; ans_lng := lng;
                                   ans_formatted_address := a |}
                        end
                    end
                end
            end
        end
    end.

(** [MapsClient.geocode]: the two [except] clauses turn every exception
    into a [ValueError], whose text [inl] carries. *)
Definition geocode (location_query : string) (reply : HttpReply)
  : string + GeocodeAnswer :=
  match reply with
  | TransportError e => inl ("Failed to geocode location: " ++ e)
  | DecodeError e => inl ("Geocoding error: " ++ e)
  | JsonBody data =>
      match geocode_body location_query data with
      | inl e => inl ("Geocoding error: " ++ e)
      | inr answer => inr answer
      end
  end.

Record GeocodeResponse := {
  gc_lat : Qc;
  gc_lng : Qc;
  gc_formatted_address : string
}.

(** The answer of an endpoint: a body, or [HTTPException(status_code,
    detail)]. *)
Inductive HttpResult (A : Type) :=
  | Http200 (body : A)
  | HttpError (status_code : Z) (detail : string).
Arguments Http200 {A} body.
Arguments HttpError {A} status_code detail.

(** [geocode_location]: [except ValueError as e] answers 400 with
    [str(e)]. *)
Definition geocode_location (location_query : string) (reply : HttpReply)
  : HttpResult GeocodeResponse :=
  match geocode location_query reply with
  | inr result =>
      Http200 {| gc_lat := ans_lat result;
                 gc_lng := ans_lng result;
                 gc_formatted_address := ans_formatted_address result |}
  | inl e => HttpError 400 e
  end.

(** ** Extraction of the JSON text from a reply of the language model
    ([_extract_json_from_response] of app/services/gemini_client.py) *)

(** [s.find(sub)]; [None] stands for -1. *)
Fixpoint find (sub s : string) {struct s} : option nat :=
  if String.prefix sub s then Some 0%nat
  else match s with
       | "" => None
       | String _ r => option_map S (find sub r)
       end.

(** [s.rfind(sub)] *)
Fixpoint rfind (sub s : string) {struct s} : option nat :=
  match s with
  | "" => if String.prefix sub "" then Some 0%nat else None
  | String _ r =>
      match rfind sub r with
      | Some i => Some (S i)
      | None => if String.prefix sub s then Some 0%nat else None
      end
  end.

Fixpoint string_drop (n : nat) (s : string) : string :=
  match n, s with
  | O, _ => s
  | S n', String _ r => string_drop n' r
  | S _, "" => ""
  end.

Fixpoint string_take (n : nat) (s : string) : string :=
  match n, s with
  | O, _ => ""
  | S n', String c r => String c (string_take n' r)
  | S _, "" => ""
  end.

(** [s[start:stop]] for indices that are not negative *)
Definition slice (start stop : nat) (s : string) : string :=
  string_take (stop - start) (string_drop start s).

(** [s.find(sub, start)] for a start that is not negative *)
Definition find_from (sub s : string) (start : nat) : option nat :=
  if (start <=? String.length s)%nat
  then option_map (fun i => (start + i)%nat) (find sub (string_drop start s))
  else None.

(** [s.endswith(suffix)] *)
Fixpoint ends_with (suffix s : string) : bool :=
  String.eqb suffix s
  || match s with "" => false | String _ r => ends_with suffix r end.

Definition fence : string := "```".
Definition fence_json : string := "```json".

(** Lines 38-47: the text between a code fence and the next one. *)
Definition unfence (text : string) : string :=
  if contains fence_json text then
    match find fence_json text with
    | Some i =>
        let start := (i + 7)%nat in
        match find_from fence text start with
        | Some stop => strip (slice start stop text)
        | None => text
        end
    | None => text
    end
  else if contains fence text then
    match find fence text with
    | Some i =>
        let start := (i + 3)%nat in
        match find_from fence text start with
        | Some stop => strip (slice start stop text)
        | None => text
        end
    | None => text
    end
  else text.

(** Lines 50-55: the text from the first opening brace to the last
    closing one. *)
Definition braces (text : string) : string :=
  if String.prefix "{" text && ends_with "}" text then text
  else if contains "{" text && contains "}" text then
    match find "{" text, rfind "}" text with
    | Some start, Some i => slice start (i + 1) text
    | _, _ => text
    end
  else text.

(** The text that is handed to [json.loads]. *)
Definition json_text (response_text : string) : string :=
  braces (unfence (strip response_text)).

Section JsonLoads.
(** [json.loads], which rejects a text by [None]. *)
Context {Json : Type} (json_loads : string -> option Json).

(** [inl] carries the text that could not be parsed, for the
    [ValueError]. *)
Definition extract_json_from_response (response_text : string)
  : string + Json :=
  match json_loads (json_text response_text) with
  | Some value => inr value
  | None => inl (json_text response_text)
  end.
End JsonLoads.

(** ** The message for the user ([generate_text] of
    app/services/gemini_client.py, [generate_user_message] of
    app/services/ai_logic.py and its endpoint in app/main.py) *)

(** The call of the language model gives the text of an exception ([inl])
    or the text of the reply ([inr]); [generate_text] strips the reply and
    turns any exception into a [ValueError]. *)
Definition generate_text (reply : string + string) : string + string :=
  match reply with
  | inl e => inl ("Failed to generate text response from Gemini: " ++ e)
  | inr response_text => inr (strip response_text)
  end.

(** [return message.strip()] *)
Definition generate_user_message (reply : string + string) : string + string :=
  match generate_text reply with
  | inl e => inl e
  | inr message => inr (strip message)
  end.

Record GenerateUserMessageResponse := { message : string }.

Definition generate_user_message_endpoint (reply : string + string)
  : HttpResult GenerateUserMessageResponse :=
  match generate_user_message reply with
  | inr m => Http200 {| message := m |}
  | inl e => HttpError 400 e
  end.

(** * Vocabulary of the statements *)

(** ** Tokens of the form HH:mm *)

Definition digit_val (c : ascii) : Z := Z.of_nat (nat_of_ascii c) - 48.

(** The token written with the four digits [a b : c d]. *)
Definition hhmm (a b c d : ascii) : string :=
  String a (String b (String ":" (String c (String d "")))).

Definition two_digits (a b : ascii) : Z := 10 * digit_val a + digit_val b.

(** The hour and the minute that a token accepted by the pattern spells. *)
Definition token_hour (s : string) : Z :=
  match s with
  | String a (String b _) => two_digits a b
  | _ => 0
  end.

Definition token_minute (s : string) : Z :=
  match s with
  | String _ (String _ (String _ (String c (String d _)))) => two_digits c d
  | _ => 0
  end.

(** The response built on the clarification path. *)
Definition placeholder (msg : string) : ParseIntentResponse :=
  {| location_query := "";
     duration_minutes := 1;
     start_hour := None;
     max_price := None;
     preferences := None;
     needs_clarification := Some true;
     clarification_message := Some msg;
     is_more_request := Some false;
     requested_radius_km := None;
     is_closest_request := Some false;
     is_cheapest_request := Some false |}.

(** ** Mandatory fields of an intent *)

Inductive MandatoryField := Location | Duration | StartHour.

(** The three [missing_*] tests of [parse_intent], by field. *)
Definition is_missing (g : RawIntentGuess) (f : MandatoryField) : bool :=
  match f with
  | Location => missing_location (g_location_query g)
  | Duration => missing_duration (g_duration_minutes g)
  | StartHour => missing_start_hour (g_start_hour g)
  end.

Definition only_missing (g : RawIntentGuess) (f : MandatoryField) : Prop :=
  is_missing g f = true /\ forall f', f' <> f -> is_missing g f' = false.

(** The words by which a prompt names a field. *)
Definition field_words (f : MandatoryField) : list string :=
  match f with
  | Location => ["where"; "location"]
  | Duration => ["how long"; "duration"]
  | StartHour => ["time"; "start"]
  end.

Definition mentions (f : MandatoryField) (msg : string) : bool :=
  existsb (fun w => contains w msg) (field_words f).

(** The prompt of the [elif] chain for a single missing field. *)
Definition prompt_for (f : MandatoryField) : string :=
  match f with
  | Location => msg_location
  | Duration => msg_duration
  | StartHour => msg_start
  end.

(** ** Test data for the intent resolver *)

Definition now_1852 : Clock := {| clock_hour := 18; clock_minute := 52 |}.

Definition mk_guess (location : option string) (duration : option Z)
    (start : option string) (needs : option bool) (msg : option string)
  : RawIntentGuess :=
  {| g_location_query := location;
     g_duration_minutes := duration;
     g_start_hour := start;
     g_max_price := None;
     g_preferences := None;
     g_needs_clarification := needs;
     g_clarification_message := msg;
     g_is_more_request := Some true;
     g_requested_radius_km := None;
     g_is_closest_request := None;
     g_is_cheapest_request := None |}.

(** "parking near FSEGA for 2 hours", no start time anywhere. *)
Definition guess_no_start : RawIntentGuess :=
  mk_guess (Some "FSEGA") (Some 120) None (Some true) None.

(** The same guess, with a clarification text written by the language
    model. *)
Definition oracle_text : string :=
  "Please tell me the location, the duration and the start time.".

Definition guess_no_start_with_text : RawIntentGuess :=
  mk_guess (Some "FSEGA") (Some 120) None (Some true) (Some oracle_text).

(** Start hour 09:05 asked at 18:52, everything else present, and a
    clarification text from the language model. *)
Definition guess_past_start : RawIntentGuess :=
  mk_guess (Some "FSEGA") (Some 120) (Some "09:05") (Some false)
           (Some oracle_text).

(** The location is missing, the start hour 09:05 is asked at 18:52, and
    the language model wrote a clarification text. *)
Definition guess_no_location_past : RawIntentGuess :=
  mk_guess None (Some 120) (Some "09:05") (Some true) (Some oracle_text).

(** ** Conversation context *)

(** Number of characters of a list of lines. *)
Definition total_length (lines : list string) : nat :=
  foldr (fun s n => (String.length s + n)%nat) 0%nat lines.

(** ** Rankings *)

(** The bounds [ge=0, le=1] that [SlotRanking] declares for a score. *)
Definition valid_score (sc : Qc) : Prop := (0 <= sc)%Qc /\ (sc <= 1)%Qc.

Definition valid_ranking (rk : list (string * Qc)) : Prop :=
  Forall (fun item => valid_score item.2) rk.

Definition to_ranking (item : string * Qc) : SlotRanking :=
  {| sr_slot_id := item.1; score := item.2 |}.

(** The entries of a ranking as pairs, as the language model sent them. *)
Definition ranking_items (rk : list SlotRanking) : list (string * Qc) :=
  map (fun r => (sr_slot_id r, score r)) rk.

(** The score the ranking gives to a slot id, 0 when it has none. *)
Definition oracle_score (rk : list SlotRanking) (sid : string) : Qc :=
  default 0%Qc (dict_of sr_slot_id score rk !! sid).

(** A list of slot ids is in fallback order: of two ids, the earlier one
    has the larger score, or the same score and a distance not larger. *)
Definition fallback_ordered (slots : list ParkingSlot) (rk : list SlotRanking)
    (ids : list string) : Prop :=
  forall (i j : nat) (sa sb : ParkingSlot),
    (i < j)%nat ->
    ids !! i = Some (slot_id sa) -> ids !! j = Some (slot_id sb) ->
    sa ∈ slots -> sb ∈ slots ->
    (oracle_score rk (slot_id sb) < oracle_score rk (slot_id sa))%Qc
    \/ (oracle_score rk (slot_id sa) = oracle_score rk (slot_id sb)
        /\ distance_m sa <= distance_m sb).

(** Order on sort keys: [a] is not above [b]. *)
Definition key_le (a b : Qc * Z) : Prop := key_lt b a = false.

(** ** Test data for the recommendation endpoint *)

Definition normal_intent : UserIntent := mk_intent false false false.
Definition more_intent : UserIntent := mk_intent true false false.

(** A ranking with a score above 1. *)
Definition result_bad_score : RankingResult :=
  mk_result "s1" ["s1"] [("s1", Q2Qc (3 # 2))].

(** A recommended list with a repeated id and an unknown id. *)
Definition result_dirty : RankingResult :=
  mk_result "s1" ["s1"; "s1"; "zz"] [("s1", Q2Qc (1 # 2))].

(** The best slot is listed, but not first. *)
Definition result_best_second : RankingResult :=
  mk_result "s1" ["s2"; "s1"] [].

(** The best slot is the eleventh id of the list. *)
Definition result_best_last : RankingResult :=
  mk_result "s1"
    ["a0"; "a1"; "a2"; "a3"; "a4"; "a5"; "a6"; "a7"; "a8"; "a9"; "s1"] [].

(** The best slot is not one of the candidates. *)
Definition result_unknown_best : RankingResult :=
  mk_result "s9" ["s1"] [].

(** A well-behaved answer over two candidates. *)
Definition result_plain : RankingResult :=
  mk_result "s1" ["s1"; "s2"] [("s1", Q2Qc (9 # 10)); ("s2", Q2Qc (1 # 2))].

(** ** Blank strings and clarification conditions *)

(** Every character is white space (the empty string included). *)
Fixpoint all_space (s : string) : bool :=
  match s with
  | "" => true
  | String c r => is_space c && all_space r
  end.

(** A start hour earlier than the clock. *)
Definition in_the_past (now : Clock) (s : string) : Prop :=
  token_hour s < clock_hour now
  \/ (token_hour s = clock_hour now /\ token_minute s < clock_minute now).

(** ** Conditions on a raw guess *)

(** The circumstances in which the resolver has to ask: the language
    model said so, a mandatory field is missing, or the start hour does
    not pass the validator. *)
Definition must_ask (now : Clock) (g : RawIntentGuess) : Prop :=
  g_needs_clarification g = Some true
  \/ (exists f, is_missing g f = true)
  \/ (validate_start_hour now (g_start_hour g)).1 = false.

(** A number that is present and below zero. *)
Definition negative (x : option Qc) : Prop :=
  exists q, x = Some q /\ (q < 0)%Qc.

(** A complete guess with a negative price and one with everything in
    order. *)
Definition guess_complete (price : option Qc) : RawIntentGuess :=
  {| g_location_query := Some "FSEGA";
     g_duration_minutes := Some 120;
     g_start_hour := Some "18:55";
     g_max_price := price;
     g_preferences := None;
     g_needs_clarification := Some false;
     g_clarification_message := None;
     g_is_more_request := None;
     g_requested_radius_km := None;
     g_is_closest_request := Some true;
     g_is_cheapest_request := None |}.

(** Nothing but the location is known. *)
Definition guess_only_location : RawIntentGuess :=
  mk_guess (Some "FSEGA") None None None None.

(** The response to [guess_complete None] at 18:52. *)
Definition complete_response : ParseIntentResponse :=
  {| location_query := "FSEGA";
     duration_minutes := 120;
     start_hour := Some "18:55";
     max_price := None;
     preferences := None;
     needs_clarification := Some false;
     clarification_message := None;
     is_more_request := Some false;
     requested_radius_km := None;
     is_closest_request := Some true;
     is_cheapest_request := Some false |}.

(** ** More test data *)

Definition short_history : list ConversationMessage :=
  [ {| text := "parking near FSEGA"; is_user := true |};
    {| text := "For how long?"; is_user := false |} ].

Definition closest_intent : UserIntent := mk_intent false true false.

(** Three candidates, the last two at the same distance. *)
Definition three_slots : list ParkingSlot :=
  [mk_slot "s1" 150; mk_slot "s2" 350; mk_slot "s3" 350].

(** A text of 2000 characters. *)
Definition long_text : string :=
  Eval vm_compute in
    Nat.iter 2000 (fun s => String "a"%char s) "".

(** The model lists the two farthest slots only; none has a score. *)
Definition result_far_first : RankingResult := mk_result "s3" ["s3"] [].

(** Four candidates; the model names s1 best, lists s2 before it, and
    scores s4 above s3. *)
Definition four_slots : list ParkingSlot :=
  [mk_slot "s1" 150; mk_slot "s2" 350; mk_slot "s3" 500; mk_slot "s4" 250].

Definition result_two_of_four : RankingResult :=
  mk_result "s1" ["s2"; "s1"]
    [("s1", Q2Qc (9 # 10)); ("s3", Q2Qc (1 # 5)); ("s4", Q2Qc (7 # 10))].

(** Twelve turns, numbered by their text. *)
Definition twelve_turns : list ConversationMessage :=
  map (fun t => {| text := t; is_user := true |})
    ["t01"; "t02"; "t03"; "t04"; "t05"; "t06";
     "t07"; "t08"; "t09"; "t10"; "t11"; "t12"].

(** ** Test data for geocoding *)

Definition cluj : GeoResult :=
  {| geo_geometry :=
       Some {| geo_location :=
                 Some {| geo_lat := Some (Q2Qc (4677 # 100));
                         geo_lng := Some (Q2Qc (2359 # 100)) |} |};
     geo_formatted_address := Some "FSEGA, Cluj-Napoca" |}.

Definition body_ok : GeoData :=
  {| geo_status := Some "OK"; geo_error_message := None;
     geo_results := Some [cluj] |}.

Definition body_denied : GeoData :=
  {| geo_status := Some "REQUEST_DENIED";
     geo_error_message := Some "The provided API key is invalid.";
     geo_results := Some [] |}.

Definition body_zero : GeoData :=
  {| geo_status := Some "OK"; geo_error_message := None;
     geo_results := Some [] |}.

(** ** Pieces of text *)

(** [x] occurs in [s]. *)
Definition substring_of (x s : string) : Prop :=
  exists pre post, s = pre ++ x ++ post.

(** The character [c] occurs in [s]. *)
Fixpoint has_char (c : ascii) (s : string) : bool :=
  match s with
  | "" => false
  | String d r => Ascii.eqb d c || has_char c r
  end.

(** A reply in a code fence. *)
Definition fenced_body : string := nl ++ "{'best_slot_id': 's1'}" ++ nl.

Definition fenced_reply : string := fence_json ++ fenced_body ++ fence.

(** A reply with words around the object. *)
Definition chatty_reply : string :=
  "Here is the JSON: " ++ "{'best_slot_id': 's1'}" ++ " Hope it helps!".

(** * Properties *)

(** ** The scenarios of the design document *)

Example scenario_B_normal :
  recommended (recommend_best_slot (mk_intent false false false) two_slots
                 (mk_result "s1" ["s1"] [])) = Some ["s1"].
Proof. vm_compute. reflexivity. Qed.

Example scenario_B_more :
  recommended (recommend_best_slot (mk_intent true false false) two_slots
                 (mk_result "s1" ["s1"] [])) = Some ["s1"; "s2"].
Proof. vm_compute. reflexivity. Qed.


Example validator_rejects_bad_shape :
  validate_start_hour now_1852 (Some "9:05") = (false, Some format_error).
Proof. vm_compute. reflexivity. Qed.

Example validator_rejects_bad_minute :
  validate_start_hour now_1852 (Some "19:75") = (false, Some minute_error).
Proof. vm_compute. reflexivity. Qed.

Example validator_accepts_current_minute :
  validate_start_hour now_1852 (Some "18:52") = (true, None).
Proof. vm_compute. reflexivity. Qed.

(** ** Strings *)

Lemma append_nil (t : string) : "" ++ t = t.
Proof. reflexivity. Qed.

Lemma append_cons (c : ascii) (s t : string) :
  String c s ++ t = String c (s ++ t).
Proof. reflexivity. Qed.

Lemma append_assoc (s t u : string) : (s ++ t) ++ u = s ++ (t ++ u).
Proof.
  induction s as [|c s IH]; [reflexivity|].
  rewrite !append_cons. now f_equal.
Qed.

Lemma length_append (s t : string) :
  String.length (s ++ t) = (String.length s + String.length t)%nat.
Proof.
  induction s as [|c s IH]; [reflexivity|].
  rewrite append_cons. simpl. now rewrite IH.
Qed.

Lemma prefix_append (s t : string) : String.prefix s (s ++ t) = true.
Proof.
  induction s as [|c s IH].
  - rewrite append_nil. now destruct t.
  - rewrite append_cons. simpl.
    destruct (ascii_dec c c) as [_|Hne]; [exact IH | now elim Hne].
Qed.

Lemma contains_unfold (needle hay : string) :
  contains needle hay =
    String.prefix needle hay
    || match hay with "" => false | String _ r => contains needle r end.
Proof. destruct hay; reflexivity. Qed.

Lemma contains_here (s t : string) : contains s (s ++ t) = true.
Proof. rewrite contains_unfold, prefix_append. reflexivity. Qed.

(** [contains] finds every occurrence: [s] is in [pre ++ s ++ post]. *)
Lemma contains_append (pre s post : string) :
  contains s (pre ++ (s ++ post)) = true.
Proof.
  induction pre as [|c pre IH].
  - rewrite append_nil. apply contains_here.
  - rewrite append_cons. simpl. rewrite IH. apply orb_true_r.
Qed.

Lemma digit_range (c : ascii) :
  is_digit c = true -> (48 <= nat_of_ascii c <= 57)%nat.
Proof.
  unfold is_digit. intros H. apply andb_true_iff in H as [H1 H2].
  apply Nat.leb_le in H1, H2. lia.
Qed.

Lemma digit_not_space (c : ascii) : is_digit c = true -> is_space c = false.
Proof.
  intros H. apply digit_range in H. unfold is_space.
  repeat match goal with
         | |- context [(?a <=? ?b)%nat] => destruct (Nat.leb_spec a b)
         | |- context [(?a =? ?b)%nat] => destruct (Nat.eqb_spec a b)
         end; simpl; try reflexivity; lia.
Qed.

Lemma digit_not_colon (c : ascii) : is_digit c = true -> Ascii.eqb c ":" = false.
Proof.
  intros H. destruct (Ascii.eqb_spec c ":") as [->|]; [|reflexivity].
  vm_compute in H. discriminate.
Qed.

Lemma rstrip_cons_nonspace (c : ascii) (r : string) :
  is_space c = false -> exists r', rstrip (String c r) = String c r'.
Proof. intros H. simpl. rewrite H. destruct (rstrip r); eauto. Qed.

(** A string that starts with a non-blank character does not strip to
    the empty string. *)
Lemma strip_nonspace_head (c : ascii) (r : string) :
  is_space c = false -> is_empty (strip (String c r)) = false.
Proof.
  intros H. unfold strip. simpl lstrip. rewrite H.
  destruct (rstrip_cons_nonspace c r H) as [r' ->]. reflexivity.
Qed.

(** ** Tokens of the form HH:mm *)

Lemma two_digits_nonneg (a b : ascii) :
  is_digit a = true -> is_digit b = true -> 0 <= two_digits a b.
Proof.
  intros Ha Hb. apply digit_range in Ha, Hb. unfold two_digits, digit_val. lia.
Qed.

Lemma py_int_two_digits (a b : ascii) :
  is_digit a = true -> is_digit b = true ->
  py_int (String a (String b "")) = Some (two_digits a b).
Proof.
  intros Ha Hb. unfold py_int, strip. simpl lstrip.
  rewrite (digit_not_space a Ha). simpl rstrip.
  rewrite (digit_not_space b Hb). simpl. rewrite Ha, Hb. simpl.
  unfold two_digits, digit_val. f_equal; lia.
Qed.

Lemma matches_hhmm (a b c d : ascii) :
  is_digit a = true -> is_digit b = true ->
  is_digit c = true -> is_digit d = true ->
  matches_HHmm (hhmm a b c d) = true.
Proof. intros Ha Hb Hc Hd. unfold hhmm. simpl. now rewrite Ha, Hb, Hc, Hd. Qed.

Lemma parse_hhmm (a b c d : ascii) :
  is_digit a = true -> is_digit b = true ->
  is_digit c = true -> is_digit d = true ->
  parse_hour_minute (hhmm a b c d) = Some (two_digits a b, two_digits c d).
Proof.
  intros Ha Hb Hc Hd. unfold parse_hour_minute, hhmm.
  cbn [split]. rewrite (digit_not_colon a Ha), (digit_not_colon b Hb),
    (digit_not_colon c Hc), (digit_not_colon d Hd).
  change (Ascii.eqb ":" ":") with true. cbn [map].
  now rewrite (py_int_two_digits a b Ha Hb), (py_int_two_digits c d Hc Hd).
Qed.

Lemma py_int_two_digits_nl (a b : ascii) :
  is_digit a = true -> is_digit b = true ->
  py_int (String a (String b nl)) = Some (two_digits a b).
Proof.
  intros Ha Hb. unfold py_int, strip. simpl lstrip.
  rewrite (digit_not_space a Ha). simpl rstrip.
  rewrite (digit_not_space b Hb). simpl. rewrite Ha, Hb. simpl.
  unfold two_digits, digit_val. f_equal; lia.
Qed.

Lemma parse_hhmm_nl (a b c d : ascii) :
  is_digit a = true -> is_digit b = true ->
  is_digit c = true -> is_digit d = true ->
  parse_hour_minute (hhmm a b c d ++ nl) = Some (two_digits a b, two_digits c d).
Proof.
  intros Ha Hb Hc Hd. unfold parse_hour_minute, hhmm.
  rewrite !append_cons, append_nil.
  cbn [split nl]. rewrite (digit_not_colon a Ha), (digit_not_colon b Hb),
    (digit_not_colon c Hc), (digit_not_colon d Hd).
  change (Ascii.eqb ":" ":") with true.
  change (Ascii.eqb (ascii_of_nat 10) ":") with false. cbn [map].
  change (String d (String (ascii_of_nat 10) "")) with (String d nl).
  now rewrite (py_int_two_digits a b Ha Hb), (py_int_two_digits_nl c d Hc Hd).
Qed.

(** The strings accepted by the pattern: four digits around a colon,
    possibly followed by one newline. *)
Lemma matches_HHmm_inv (s : string) :
  matches_HHmm s = true ->
  exists a b c d,
    is_digit a = true /\ is_digit b = true /\
    is_digit c = true /\ is_digit d = true /\
    (s = hhmm a b c d \/ s = hhmm a b c d ++ nl).
Proof.
  destruct s as [|a [|b [|sep [|c [|d rest]]]]]; try discriminate.
  simpl. intros H.
  apply andb_true_iff in H as [H Hr]. apply andb_true_iff in H as [H Hd].
  apply andb_true_iff in H as [H Hc]. apply andb_true_iff in H as [H Hsep].
  apply andb_true_iff in H as [Ha Hb].
  exists a, b, c, d.
  assert (sep = ":"%char) as -> by now apply Ascii.eqb_eq.
  repeat (split; [assumption|]).
  apply orb_true_iff in Hr as [Hr|Hr]; apply String.eqb_eq in Hr; subst rest;
    [left | right]; reflexivity.
Qed.

Lemma matches_not_blank (s : string) :
  matches_HHmm s = true -> is_empty s = false /\ is_empty (strip s) = false.
Proof.
  intros H. destruct s as [|a r]; [discriminate|]. split; [reflexivity|].
  apply strip_nonspace_head, digit_not_space.
  destruct r as [|b [|sep [|c [|d rest]]]]; try discriminate.
  simpl in H. do 5 (apply andb_true_iff in H as [H _]). exact H.
Qed.

(** What the validator answers on a token accepted by the pattern whose
    hour and minute are in range, by cases on the clock. *)
Lemma validate_matching (now : Clock) (s : string) :
  matches_HHmm s = true ->
  token_hour s <= 23 -> token_minute s <= 59 ->
  validate_start_hour now (Some s) =
    if (token_hour s <? clock_hour now)
       || ((token_hour s =? clock_hour now)
           && (token_minute s <? clock_minute now))
    then (false, Some (past_error s (strftime_HM now)))
    else (true, None).
Proof.
  intros Hs Hh Hm. unfold validate_start_hour.
  destruct (matches_not_blank s Hs) as [_ ->]. rewrite Hs. cbn [negb].
  destruct (matches_HHmm_inv s Hs) as (a & b & c & d & Ha & Hb & Hc & Hd & Heq).
  assert (parse_hour_minute s = Some (token_hour s, token_minute s)) as ->.
  { destruct Heq as [-> | ->].
    - now rewrite parse_hhmm.
    - now rewrite parse_hhmm_nl. }
  assert (0 <= token_hour s /\ 0 <= token_minute s) as [? ?].
  { destruct Heq as [-> | ->]; split;
      solve [apply two_digits_nonneg; assumption]. }
  destruct (Z.ltb_spec (token_hour s) 0); [lia|].
  destruct (Z.gtb_spec (token_hour s) 23); [lia|].
  destruct (Z.ltb_spec (token_minute s) 0); [lia|].
  destruct (Z.gtb_spec (token_minute s) 59); [lia|].
  reflexivity.
Qed.

(** ** The intent resolver, case by case *)

Lemma create_clarification_response_ok (msg : string) :
  create_clarification_response msg = Ok (placeholder msg).
Proof. reflexivity. Qed.

Lemma start_hour_given_missing (start : option string) :
  start_hour_given start = negb (missing_start_hour start).
Proof.
  destruct start as [s|]; [|reflexivity]. simpl.
  now destruct (is_empty s), (is_empty (strip s)).
Qed.

(** A start hour that is absent or blank passes the validator. *)
Lemma not_given_is_valid (now : Clock) (o : option string) :
  start_hour_given o = false -> validate_start_hour now o = (true, None).
Proof.
  destruct o as [s|]; [|reflexivity]. simpl. unfold validate_start_hour.
  destruct (is_empty (strip s)) eqn:Hb; [reflexivity|].
  destruct s; [discriminate Hb | discriminate].
Qed.

(** Every rejection of the validator comes with a message. *)
Lemma rejected_has_message (now : Clock) (o m : option string) :
  validate_start_hour now o = (false, m) ->
  exists err, m = Some err /\ is_empty err = false.
Proof.
  unfold validate_start_hour. destruct o as [s|]; [|discriminate].
  destruct (is_empty (strip s)); [discriminate|].
  destruct (negb (matches_HHmm s)); [intros [= <-]; now eexists|].
  destruct (parse_hour_minute s) as [[hour minute]|];
    [|intros [= <-]; now eexists].
  repeat match goal with
         | |- context [if ?c then _ else _] => destruct c
         end;
    intros [= <-] || discriminate; eexists; split; reflexivity.
Qed.

(** No start hour: the resolver always asks. *)
Lemma parse_intent_no_start (now : Clock) (g : RawIntentGuess) :
  start_hour_given (g_start_hour g) = false ->
  parse_intent now g =
    Ok (placeholder (clarification_text (g_clarification_message g)
                       (missing_location (g_location_query g))
                       (missing_duration (g_duration_minutes g)) true)).
Proof.
  intros H. unfold parse_intent, parse_intent_body. rewrite H.
  rewrite !orb_true_r. reflexivity.
Qed.

(** A start hour the validator rejects: the resolver answers with the
    validator's message. *)
Lemma parse_intent_rejected (now : Clock) (g : RawIntentGuess)
    (err : option string) :
  start_hour_given (g_start_hour g) = true ->
  validate_start_hour now (g_start_hour g) = (false, err) ->
  parse_intent now g =
    Ok (placeholder (clarification_text err
                       (missing_location (g_location_query g))
                       (missing_duration (g_duration_minutes g))
                       (missing_start_hour (g_start_hour g)))).
Proof.
  intros H Hv. unfold parse_intent, parse_intent_body. rewrite H, Hv.
  reflexivity.
Qed.

(** A start hour the validator accepts, with something else missing or the
    language model asking for clarification. *)
Lemma parse_intent_accepted_clarifies (now : Clock) (g : RawIntentGuess)
    (err : option string) :
  start_hour_given (g_start_hour g) = true ->
  validate_start_hour now (g_start_hour g) = (true, err) ->
  default false (g_needs_clarification g)
  || missing_duration (g_duration_minutes g)
  || missing_location (g_location_query g) = true ->
  parse_intent now g =
    Ok (placeholder (clarification_text (g_clarification_message g)
                       (missing_location (g_location_query g))
                       (missing_duration (g_duration_minutes g)) false)).
Proof.
  intros H Hv Hc. unfold parse_intent, parse_intent_body. rewrite H, Hv.
  cbn [negb]. rewrite Hc. cbn [orb].
  rewrite start_hour_given_missing in H. apply negb_true_iff in H.
  rewrite H. reflexivity.
Qed.

(** Everything present and accepted: the response built on the other
    path leaves [needs_clarification] false. *)
Lemma parse_intent_complete (now : Clock) (g : RawIntentGuess)
    (err : option string) (resp : ParseIntentResponse) :
  start_hour_given (g_start_hour g) = true ->
  validate_start_hour now (g_start_hour g) = (true, err) ->
  default false (g_needs_clarification g)
  || missing_duration (g_duration_minutes g)
  || missing_location (g_location_query g) = false ->
  parse_intent now g = Ok resp ->
  needs_clarification resp = Some false.
Proof.
  intros H Hv Hc. unfold parse_intent, parse_intent_body. rewrite H, Hv.
  cbn [negb]. rewrite Hc. cbn [orb].
  rewrite start_hour_given_missing in H. apply negb_true_iff in H.
  rewrite H. unfold ParseIntentResponse_init.
  apply orb_false_iff in Hc as [Hc _]. apply orb_false_iff in Hc as [Hc _].
  rewrite Hc.
  match goal with |- context [if ?c then Ok ?r else _] => destruct c end;
    cbn; [|discriminate].
  intros [= <-]. reflexivity.
Qed.

(** ** The time validator *)

(** C8.  A start-hour token accepted by the pattern (two digits, a colon,
    two digits), with its hour at most 23 and its minute at most 59, that
    is not earlier than the current hour and minute is accepted by the
    validator; so are an absent token and a blank one, and no value or
    message comes with the acceptance. *)
Theorem validate_start_hour_accepts (now : Clock) (s : string) :
  matches_HHmm s = true ->
  token_hour s <= 23 -> token_minute s <= 59 ->
  (clock_hour now < token_hour s
   \/ (token_hour s = clock_hour now /\ clock_minute now <= token_minute s)) ->
  validate_start_hour now (Some s) = (true, None)
  /\ validate_start_hour now None = (true, None)
  /\ (forall blank, is_empty (strip blank) = true ->
      validate_start_hour now (Some blank) = (true, None)).
Proof.
  intros Hs Hh Hm Hnow. split; [|split].
  - rewrite validate_matching by assumption.
    destruct (Z.ltb_spec (token_hour s) (clock_hour now)); [lia|].
    destruct (Z.eqb_spec (token_hour s) (clock_hour now)); [|reflexivity].
    destruct (Z.ltb_spec (token_minute s) (clock_minute now)); [lia|].
    reflexivity.
  - reflexivity.
  - intros blank Hb. unfold validate_start_hour. now rewrite Hb.
Qed.

Lemma validate_start_hour_accepts_witness :
  validate_start_hour now_1852 (Some "18:55") = (true, None).
Proof.
  refine (proj1 (validate_start_hour_accepts now_1852 "18:55" _ _ _ _)).
  - reflexivity.
  - vm_compute. discriminate.
  - vm_compute. discriminate.
  - right. split; [reflexivity | vm_compute; discriminate].
Defined.





(** ** The intent resolver *)

(** C10.  A response of the resolver that asks for clarification carries
    the fixed placeholder values, whatever the language model guessed:
    empty location, duration 1, no start hour, no price, preferences or
    radius, and the three mode flags false. *)
Theorem clarification_response_is_placeholder
    (now : Clock) (g : RawIntentGuess) (resp : ParseIntentResponse) :
  parse_intent now g = Ok resp ->
  needs_clarification resp = Some true ->
  location_query resp = ""
  /\ duration_minutes resp = 1
  /\ start_hour resp = None
  /\ max_price resp = None
  /\ preferences resp = None
  /\ requested_radius_km resp = None
  /\ is_more_request resp = Some false
  /\ is_closest_request resp = Some false
  /\ is_cheapest_request resp = Some false
  /\ exists msg, clarification_message resp = Some msg.
Proof.
  intros Hp Hn.
  assert (exists msg, resp = placeholder msg) as [msg ->].
  { destruct (start_hour_given (g_start_hour g)) eqn:Hgiven.
    - destruct (validate_start_hour now (g_start_hour g)) as [[|] err] eqn:Hv.
      + destruct (default false (g_needs_clarification g)
                  || missing_duration (g_duration_minutes g)
                  || missing_location (g_location_query g)) eqn:Hc.
        * rewrite (parse_intent_accepted_clarifies now g err Hgiven Hv Hc) in Hp.
          injection Hp as <-. eauto.
        * rewrite (parse_intent_complete now g err resp Hgiven Hv Hc Hp) in Hn.
          discriminate.
      + rewrite (parse_intent_rejected now g err Hgiven Hv) in Hp.
        injection Hp as <-. eauto.
    - rewrite (parse_intent_no_start now g Hgiven) in Hp.
      injection Hp as <-. eauto. }
  repeat (split; [reflexivity|]). now exists msg.
Qed.

Lemma clarification_response_is_placeholder_witness :
  location_query (placeholder msg_start) = ""
  /\ duration_minutes (placeholder msg_start) = 1
  /\ start_hour (placeholder msg_start) = None
  /\ max_price (placeholder msg_start) = None
  /\ preferences (placeholder msg_start) = None
  /\ requested_radius_km (placeholder msg_start) = None
  /\ is_more_request (placeholder msg_start) = Some false
  /\ is_closest_request (placeholder msg_start) = Some false
  /\ is_cheapest_request (placeholder msg_start) = Some false
  /\ exists msg, clarification_message (placeholder msg_start) = Some msg.
Proof.
  refine (clarification_response_is_placeholder
            now_1852 guess_no_start (placeholder msg_start) _ _).
  - reflexivity.
  - reflexivity.
Defined.

(** With the start hour accepted and some mandatory field missing, the
    resolver asks with the model's text or, without one, with the prompt
    of the chain. *)
Lemma parse_intent_accepted_missing (now : Clock) (g : RawIntentGuess) :
  (validate_start_hour now (g_start_hour g)).1 = true ->
  (exists f, is_missing g f = true) ->
  parse_intent now g =
    Ok (placeholder (clarification_text (g_clarification_message g)
                       (missing_location (g_location_query g))
                       (missing_duration (g_duration_minutes g))
                       (missing_start_hour (g_start_hour g)))).
Proof.
  intros Hvalid [f Hf].
  destruct (start_hour_given (g_start_hour g)) eqn:Hgiven.
  - destruct (validate_start_hour now (g_start_hour g)) as [valid err] eqn:Hv.
    simpl in Hvalid. subst valid.
    pose proof Hgiven as Hms. rewrite start_hour_given_missing in Hms.
    apply negb_true_iff in Hms. rewrite Hms.
    apply (parse_intent_accepted_clarifies now g err Hgiven Hv).
    destruct f; simpl in Hf.
    + rewrite Hf. apply orb_true_r.
    + rewrite Hf, orb_true_r. reflexivity.
    + congruence.
  - pose proof Hgiven as Hms. rewrite start_hour_given_missing in Hms.
    apply negb_false_iff in Hms. rewrite Hms.
    apply parse_intent_no_start, Hgiven.
Qed.

(** C7 (as amended).  Let exactly one of location, duration and start
    hour be missing.  When the language model supplied no clarification
    text of its own (none, or an empty one) and the validator accepts the
    start hour (as it does an absent or blank one), the resolver answers
    with the fixed prompt for the missing field; that prompt names the
    missing field and neither of the two others.  When the model supplied
    a text that is not empty and the validator accepts the start hour, the
    answer carries the model's text verbatim.  When the validator rejects
    the start hour, the answer carries the validator's message, whatever
    the model supplied. *)
Theorem single_missing_field_prompt
    (now : Clock) (g : RawIntentGuess) (f : MandatoryField) :
  only_missing g f ->
  let check := validate_start_hour now (g_start_hour g) in
  (check.1 = true -> truthy (g_clarification_message g) = false ->
   parse_intent now g = Ok (placeholder (prompt_for f)))
  /\ mentions f (prompt_for f) = true
  /\ (forall f', f' <> f -> mentions f' (prompt_for f) = false)
  /\ (check.1 = true ->
      forall text, g_clarification_message g = Some text -> text <> "" ->
      parse_intent now g = Ok (placeholder text))
  /\ (check.1 = false ->
      exists err,
        check.2 = Some err /\ err <> ""
        /\ parse_intent now g = Ok (placeholder err)).
Proof.
  intros [Hmiss Hothers] check.
  assert (exists f0, is_missing g f0 = true) as Hsome by now exists f.
  split; [|split; [|split; [|split]]].
  - intros Hvalid Htext.
    rewrite (parse_intent_accepted_missing now g Hvalid Hsome).
    unfold clarification_text. rewrite Htext.
    destruct f; simpl in Hmiss.
    + pose proof (Hothers Duration ltac:(discriminate)) as Hd.
      pose proof (Hothers StartHour ltac:(discriminate)) as Hs.
      simpl in Hd, Hs. now rewrite Hmiss, Hd, Hs.
    + pose proof (Hothers Location ltac:(discriminate)) as Hl.
      pose proof (Hothers StartHour ltac:(discriminate)) as Hs.
      simpl in Hl, Hs. now rewrite Hmiss, Hl, Hs.
    + pose proof (Hothers Location ltac:(discriminate)) as Hl.
      pose proof (Hothers Duration ltac:(discriminate)) as Hd.
      simpl in Hl, Hd. now rewrite Hmiss, Hl, Hd.
  - destruct f; vm_compute; reflexivity.
  - intros f' Hne. destruct f, f'; try (now elim Hne); vm_compute; reflexivity.
  - intros Hvalid text Htext Hne.
    rewrite (parse_intent_accepted_missing now g Hvalid Hsome).
    unfold clarification_text, truthy. rewrite Htext.
    destruct text; [now elim Hne | reflexivity].
  - intros Hrej.
    destruct (start_hour_given (g_start_hour g)) eqn:Hgiven.
    + subst check.
      destruct (validate_start_hour now (g_start_hour g)) as [valid m] eqn:Hv.
      simpl in Hrej. subst valid.
      destruct (rejected_has_message now _ _ Hv) as (err & -> & Herr).
      exists err. split; [reflexivity|]. split.
      * intros ->. discriminate Herr.
      * rewrite (parse_intent_rejected now g (Some err) Hgiven Hv).
        unfold clarification_text, truthy. now rewrite Herr.
    + subst check. rewrite (not_given_is_valid now _ Hgiven) in Hrej.
      discriminate Hrej.
Qed.

Lemma guess_no_start_only_missing : only_missing guess_no_start StartHour.
Proof.
  split; [reflexivity|].
  intros f' Hne. destruct f'; [reflexivity | reflexivity | now elim Hne].
Qed.

Lemma guess_no_start_with_text_only_missing :
  only_missing guess_no_start_with_text StartHour.
Proof.
  split; [reflexivity|].
  intros f' Hne. destruct f'; [reflexivity | reflexivity | now elim Hne].
Qed.

Lemma guess_no_location_past_only_missing :
  only_missing guess_no_location_past Location.
Proof.
  split; [reflexivity|].
  intros f' Hne. destruct f'; [now elim Hne | reflexivity | reflexivity].
Qed.

Lemma single_missing_field_prompt_witness :
  (parse_intent now_1852 guess_no_start = Ok (placeholder msg_start)
   /\ mentions StartHour msg_start = true
   /\ forall f', f' <> StartHour -> mentions f' msg_start = false)
  /\ parse_intent now_1852 guess_no_start_with_text
     = Ok (placeholder oracle_text)
  /\ exists err,
       (validate_start_hour now_1852 (Some "09:05")).2 = Some err
       /\ err <> ""
       /\ parse_intent now_1852 guess_no_location_past = Ok (placeholder err).
Proof.
  split; [|split].
  - destruct (single_missing_field_prompt now_1852 guess_no_start StartHour
                guess_no_start_only_missing) as (H1 & H2 & H3 & _).
    split; [|split; [exact H2 | exact H3]].
    apply H1; reflexivity.
  - destruct (single_missing_field_prompt now_1852 guess_no_start_with_text
                StartHour guess_no_start_with_text_only_missing)
      as (_ & _ & _ & H4 & _).
    apply (H4 eq_refl oracle_text eq_refl). discriminate.
  - destruct (single_missing_field_prompt now_1852 guess_no_location_past
                Location guess_no_location_past_only_missing)
      as (_ & _ & _ & _ & H5).
    apply H5. reflexivity.
Defined.

(** C7 as stated fails: with only the start hour missing, a clarification
    text written by the language model is returned verbatim, and it names
    the location and the duration, which are present. *)
Lemma oracle_text_names_present_fields :
  only_missing guess_no_start_with_text StartHour
  /\ parse_intent now_1852 guess_no_start_with_text
     = Ok (placeholder oracle_text)
  /\ mentions Location oracle_text = true
  /\ mentions Duration oracle_text = true.
Proof.
  split; [|split; [|split]]; try (vm_compute; reflexivity).
  split; [reflexivity|].
  intros f' Hne. destruct f'; [reflexivity | reflexivity | now elim Hne].
Qed.

(** ** The bounded conversation context *)

Lemma map_reverse {A B} (f : A -> B) (l : list A) :
  map f (reverse l) = reverse (map f l).
Proof.
  induction l as [|x l IH]; [reflexivity|].
  simpl. now rewrite !reverse_cons, map_app, IH.
Qed.

Lemma total_length_app (l k : list string) :
  total_length (l ++ k) = (total_length l + total_length k)%nat.
Proof. induction l as [|s l IH]; simpl; [reflexivity | rewrite IH; lia]. Qed.

Lemma total_length_reverse (l : list string) :
  total_length (reverse l) = total_length l.
Proof.
  induction l as [|s l IH]; [reflexivity|].
  rewrite reverse_cons, total_length_app, IH. simpl. lia.
Qed.

Lemma length_join (lines : list string) :
  String.length (join lines) = total_length lines.
Proof.
  induction lines as [|s l IH]; [reflexivity|].
  simpl. now rewrite length_append, IH.
Qed.

(** The loop keeps a prefix of the messages it walks through, within the
    budget, and stops at the first message that does not fit. *)
Lemma accumulate_spec (msgs : list ConversationMessage)
    (parts : list string) (total : nat) :
  total = total_length parts ->
  (total <= MAX_CONTEXT_LENGTH)%nat ->
  exists taken rest,
    msgs = (taken ++ rest)%list
    /\ accumulate msgs parts total = (parts ++ map msg_str taken)%list
    /\ (total + total_length (map msg_str taken) <= MAX_CONTEXT_LENGTH)%nat
    /\ (rest = []
        \/ exists m rest', rest = m :: rest'
           /\ (MAX_CONTEXT_LENGTH
               < total + total_length (map msg_str taken)
                 + String.length (msg_str m))%nat).
Proof.
  revert parts total.
  induction msgs as [|m msgs IH]; intros parts total Htot Hle.
  - exists [], []. simpl. rewrite app_nil_r.
    repeat split; [lia | now left].
  - simpl.
    destruct (Nat.ltb_spec MAX_CONTEXT_LENGTH
                (total + String.length (msg_str m))) as [Hover|Hfit].
    + exists [], (m :: msgs). simpl. rewrite app_nil_r.
      repeat split; [lia|]. right. exists m, msgs. split; [reflexivity | lia].
    + destruct (IH (parts ++ [msg_str m])%list
                   (total + String.length (msg_str m))%nat)
        as (taken & rest & Hmsgs & Hacc & Hsum & Hstop).
      { rewrite total_length_app. simpl. lia. }
      { exact Hfit. }
      exists (m :: taken), rest. simpl.
      split; [now rewrite Hmsgs|].
      split; [now rewrite Hacc, <- app_assoc|].
      split; [lia|].
      destruct Hstop as [-> | (m' & rest' & -> & Hover)]; [now left|].
      right. exists m', rest'. split; [reflexivity | lia].
Qed.

Lemma length_last_n {A} (n : nat) (l : list A) :
  length (last_n n l) = Nat.min n (length l).
Proof. unfold last_n. rewrite length_drop. lia. Qed.

(** The characters of joined lines are the characters of the lines, one
    line after the other. *)
Lemma chars_append (s t : string) :
  String.list_ascii_of_string (s ++ t)
  = (String.list_ascii_of_string s ++ String.list_ascii_of_string t)%list.
Proof.
  induction s as [|c s IH]; [now rewrite append_nil|].
  rewrite append_cons. simpl. now rewrite IH.
Qed.

Lemma chars_join (lines : list string) :
  String.list_ascii_of_string (join lines)
  = concat (map String.list_ascii_of_string lines).
Proof.
  induction lines as [|s l IH]; [reflexivity|].
  simpl. now rewrite chars_append, IH.
Qed.

Lemma last_n_spec {A} (n : nat) (l : list A) :
  (length (last_n n l) <= n)%nat
  /\ exists older, l = (older ++ last_n n l)%list.
Proof.
  unfold last_n. split.
  - rewrite length_drop. lia.
  - exists (take (length l - n) l). now rewrite take_drop.
Qed.

(** C9.  The context built from a conversation history uses the last 10
    turns, or all of them when there are fewer.  Of their formatted lines,
    walked from the most recent to the oldest, the loop keeps lines for as
    long as the running total stays within 2000 characters and drops the
    first line that does not fit together with everything older.  The
    retained lines are emitted oldest first, one after the other with
    nothing between them, and their text never exceeds 2000 characters. *)
Theorem bounded_context (history : list ConversationMessage) :
  let recent := last_n CONVERSATION_HISTORY_WINDOW history in
  let retained := retained_lines history in
  (length recent <= 10)%nat
  /\ length recent = Nat.min 10 (length history)
  /\ (exists older, history = (older ++ recent)%list)
  /\ (exists dropped,
        map msg_str recent = (dropped ++ retained)%list
        /\ (dropped = []
            \/ exists older_lines line,
                 dropped = (older_lines ++ [line])%list
                 /\ (2000 < String.length line + total_length retained)%nat))
  /\ (length retained <= 10)%nat
  /\ (total_length retained <= 2000)%nat
  /\ (String.length (join retained) <= 2000)%nat
  /\ String.list_ascii_of_string (join retained)
     = concat (map String.list_ascii_of_string retained)
  /\ conversation_context history =
       match retained with
       | [] => ""
       | _ => context_header ++ join retained ++ nl
       end.
Proof.
  intros recent retained.
  destruct (last_n_spec CONVERSATION_HISTORY_WINDOW history) as [Hlen Holder].
  fold recent in Hlen, Holder.
  destruct (accumulate_spec (reverse recent) [] 0%nat eq_refl)
    as (taken & rest & Hrev & Hacc & Hsum & Hstop).
  { unfold MAX_CONTEXT_LENGTH. lia. }
  assert (retained = map msg_str (reverse taken)) as Hret.
  { unfold retained, retained_lines. fold recent. rewrite Hacc. simpl.
    now rewrite map_reverse. }
  assert (recent = (reverse rest ++ reverse taken)%list) as Hrecent.
  { rewrite <- (reverse_involutive recent), Hrev. apply reverse_app. }
  assert (total_length retained = total_length (map msg_str taken)) as Htl.
  { rewrite Hret, map_reverse. apply total_length_reverse. }
  assert (total_length retained <= 2000)%nat as Hbudget.
  { rewrite Htl. simpl in Hsum. unfold MAX_CONTEXT_LENGTH in Hsum. lia. }
  split; [exact Hlen|].
  split; [exact (length_last_n CONVERSATION_HISTORY_WINDOW history)|].
  split; [exact Holder|].
  split; [|split; [|split; [|split; [|split]]]].
  - exists (map msg_str (reverse rest)). split.
    + now rewrite Hrecent, map_app, Hret.
    + destruct Hstop as [-> | (m & rest' & -> & Hover)]; [now left|].
      right. exists (map msg_str (reverse rest')), (msg_str m).
      split; [now rewrite reverse_cons, map_app|].
      rewrite Htl. simpl in Hover. unfold MAX_CONTEXT_LENGTH in Hover. lia.
  - rewrite Hret, length_map, length_reverse.
    assert (length recent = length taken + length rest)%nat as Hl.
    { rewrite <- (length_reverse recent), Hrev. apply length_app. }
    unfold CONVERSATION_HISTORY_WINDOW in Hlen. lia.
  - exact Hbudget.
  - now rewrite length_join.
  - apply chars_join.
  - unfold conversation_context. fold retained.
    destruct history as [|m h]; [reflexivity|].
    now destruct retained.
Qed.

(** Of twelve short turns the first two are left out of the context. *)
Example window_of_twelve_turns :
  retained_lines twelve_turns = map msg_str (drop 2 twelve_turns)
  /\ length (retained_lines twelve_turns) = 10%nat.
Proof. split; vm_compute; reflexivity. Qed.

(** ** Sorting *)

Lemma Qclt_irreflexive (x : Qc) : ~ (x < x)%Qc.
Proof. intros H. apply (Qclt_not_le _ _ H), Qcle_refl. Qed.

Lemma Qclt_asymmetric (x y : Qc) : (x < y)%Qc -> ~ (y < x)%Qc.
Proof. intros H H'. apply (Qclt_not_le _ _ H), Qclt_le_weak, H'. Qed.

Lemma key_lt_spec (a b : Qc * Z) :
  key_lt a b = true <-> (a.1 < b.1)%Qc \/ (a.1 = b.1 /\ a.2 < b.2).
Proof.
  unfold key_lt. destruct (a.1 ?= b.1)%Qc eqn:E.
  - apply Qceq_alt in E. rewrite Z.ltb_lt. split.
    + intros H. right. now split.
    + intros [H | [_ H]]; [|exact H].
      rewrite E in H. now apply Qclt_irreflexive in H.
  - apply Qclt_alt in E. split; [now left | reflexivity].
  - apply Qcgt_alt in E. split; [discriminate|].
    intros [H | [H _]]; exfalso.
    + exact (Qclt_asymmetric _ _ H E).
    + rewrite H in E. exact (Qclt_irreflexive _ E).
Qed.

Lemma key_le_spec (a b : Qc * Z) :
  key_le a b <-> (a.1 < b.1)%Qc \/ (a.1 = b.1 /\ a.2 <= b.2).
Proof.
  unfold key_le. rewrite <- not_true_iff_false, key_lt_spec. split.
  - intros H. destruct (Qclt_le_dec a.1 b.1) as [Hlt | Hle]; [now left|].
    right. assert (a.1 = b.1) as Heq.
    { apply Qcle_antisym; [|exact Hle]. apply Qcnot_lt_le. intros Hlt.
      apply H. now left. }
    split; [exact Heq|]. destruct (Z_le_gt_dec a.2 b.2) as [|Hgt]; [assumption|].
    exfalso. apply H. right. split; [now symmetry | lia].
  - intros [Hlt | [Heq Hle]] [Hgt | [Heq' Hlt']].
    + exact (Qclt_asymmetric _ _ Hlt Hgt).
    + rewrite Heq' in Hlt. exact (Qclt_irreflexive _ Hlt).
    + rewrite Heq in Hgt. exact (Qclt_irreflexive _ Hgt).
    + lia.
Qed.

Lemma key_le_trans (a b c : Qc * Z) : key_le a b -> key_le b c -> key_le a c.
Proof.
  rewrite !key_le_spec.
  intros [H1 | [E1 H1]] [H2 | [E2 H2]].
  - left. now apply Qclt_trans with b.1.
  - left. now rewrite <- E2.
  - left. now rewrite E1.
  - right. split; [congruence | lia].
Qed.

Lemma key_lt_le (a b : Qc * Z) : key_lt a b = true -> key_le a b.
Proof.
  rewrite key_lt_spec, key_le_spec.
  intros [H | [E H]]; [now left | right; split; [exact E | lia]].
Qed.

Section SortFacts.
Context {A : Type} (key : A -> Qc * Z).

Let ascending (x y : A) : Prop := key_le (key x) (key y).
Let descending (x y : A) : Prop := key_le (key y) (key x).

Lemma insert_by_key_Permutation (x : A) (l : list A) :
  insert_by_key key x l ≡ₚ x :: l.
Proof.
  induction l as [|y l IH]; simpl; [reflexivity|].
  destruct (key_lt (key y) (key x)); [|reflexivity].
  rewrite IH. apply Permutation_swap.
Qed.

Lemma py_sort_Permutation (l : list A) : py_sort key l ≡ₚ l.
Proof.
  induction l as [|x l IH]; simpl; [reflexivity|].
  now rewrite insert_by_key_Permutation, IH.
Qed.

Lemma py_sort_reverse_Permutation (l : list A) : py_sort_reverse key l ≡ₚ l.
Proof.
  unfold py_sort_reverse.
  now rewrite reverse_Permutation, py_sort_Permutation, reverse_Permutation.
Qed.

Lemma insert_by_key_sorted (x : A) (l : list A) :
  StronglySorted ascending l ->
  StronglySorted ascending (insert_by_key key x l).
Proof.
  induction 1 as [|y l Hs IH Hy]; simpl.
  - repeat constructor.
  - destruct (key_lt (key y) (key x)) eqn:E.
    + constructor; [exact IH|].
      rewrite insert_by_key_Permutation. constructor; [|exact Hy].
      now apply key_lt_le.
    + constructor; [now constructor|].
      constructor; [exact E|].
      eapply Forall_impl; [exact Hy|].
      intros z Hz. unfold ascending in *.
      eapply key_le_trans; [exact E | exact Hz].
Qed.

Lemma py_sort_sorted (l : list A) : StronglySorted ascending (py_sort key l).
Proof.
  induction l as [|x l IH]; simpl; [constructor|].
  now apply insert_by_key_sorted.
Qed.

Lemma reverse_sorted (l : list A) :
  StronglySorted ascending l -> StronglySorted descending (reverse l).
Proof.
  induction 1 as [|x l Hs IH Hx]; [constructor|].
  rewrite reverse_cons. apply StronglySorted_app_2.
  - intros x1 x2 H1 H2. apply list_elem_of_singleton in H2 as ->.
    rewrite elem_of_reverse in H1.
    rewrite Forall_forall in Hx. exact (Hx x1 H1).
  - exact IH.
  - repeat constructor.
Qed.

(** The sort with [reverse=True] leaves no element below a later one. *)
Lemma py_sort_reverse_sorted (l : list A) :
  StronglySorted descending (py_sort_reverse key l).
Proof. apply reverse_sorted, py_sort_sorted. Qed.

Lemma sorted_lookup (R : A -> A -> Prop) (l : list A) (i j : nat) (a b : A) :
  StronglySorted R l -> (i < j)%nat ->
  l !! i = Some a -> l !! j = Some b -> R a b.
Proof.
  intros Hs. revert i j.
  induction Hs as [|x l Hs IH Hx]; intros i j Hij Hi Hj; [discriminate|].
  destruct j as [|j]; [lia|]. simpl in Hj.
  destruct i as [|i].
  - injection Hi as <-. rewrite Forall_forall in Hx.
    apply Hx. eapply list_elem_of_lookup_2, Hj.
  - simpl in Hi. apply (IH i j); [lia | assumption | assumption].
Qed.

Lemma py_sort_reverse_lookup (l : list A) (i j : nat) (a b : A) :
  (i < j)%nat ->
  py_sort_reverse key l !! i = Some a ->
  py_sort_reverse key l !! j = Some b ->
  key_le (key b) (key a).
Proof.
  intros Hij Hi Hj.
  exact (sorted_lookup descending _ i j a b
           (py_sort_reverse_sorted l) Hij Hi Hj).
Qed.
End SortFacts.

(** ** Validation of the returned ranking *)

Lemma SlotRanking_init_valid (item : string * Qc) :
  valid_score item.2 -> SlotRanking_init item = Ok (to_ranking item).
Proof.
  destruct item as [sid sc]. intros [H0 H1]. simpl in H0, H1.
  unfold SlotRanking_init.
  destruct (sc ?= 0)%Qc eqn:E0;
    try (apply Qclt_alt in E0; now apply Qcle_not_lt in H0);
    destruct (sc ?= 1)%Qc eqn:E1; try reflexivity;
    apply Qcgt_alt in E1; now apply Qcle_not_lt in H1.
Qed.

Lemma compare_not_Lt (p q : Qc) : (p ?= q)%Qc <> Lt -> (q <= p)%Qc.
Proof.
  intros H. apply Qcnot_lt_le. intros Hlt. now apply Qclt_alt in Hlt.
Qed.

Lemma SlotRanking_init_invalid (item : string * Qc) :
  ~ valid_score item.2 -> SlotRanking_init item = Raise ValidationError.
Proof.
  destruct item as [sid sc]. intros Hbad. simpl in Hbad.
  unfold SlotRanking_init.
  destruct (sc ?= 0)%Qc eqn:E0; [| reflexivity |];
    (destruct (sc ?= 1)%Qc eqn:E1; [| | reflexivity]);
    exfalso; apply Hbad; split;
    solve [ apply compare_not_Lt; rewrite E0; discriminate
          | apply Qcle_alt; rewrite E1; discriminate ].
Qed.

Lemma valid_score_dec (sc : Qc) : {valid_score sc} + {~ valid_score sc}.
Proof.
  unfold valid_score.
  destruct (Qclt_le_dec sc 0) as [Hlt | H0].
  - right. intros [H _]. exact (Qcle_not_lt _ _ H Hlt).
  - destruct (Qclt_le_dec 1 sc) as [Hgt | H1].
    + right. intros [_ H]. exact (Qcle_not_lt _ _ H Hgt).
    + now left.
Qed.

Lemma map_outcome_valid (rk : list (string * Qc)) :
  valid_ranking rk -> map_outcome SlotRanking_init rk = Ok (map to_ranking rk).
Proof.
  induction 1 as [|item rk Hitem _ IH]; [reflexivity|].
  simpl. now rewrite (SlotRanking_init_valid item Hitem), IH.
Qed.

Lemma map_outcome_invalid (rk : list (string * Qc)) :
  ~ valid_ranking rk -> map_outcome SlotRanking_init rk = Raise ValidationError.
Proof.
  induction rk as [|item rk IH]; intros Hbad.
  - exfalso. apply Hbad. constructor.
  - simpl. destruct (valid_score_dec item.2) as [Hitem | Hitem].
    + rewrite (SlotRanking_init_valid item Hitem), IH; [reflexivity|].
      intros Hrk. apply Hbad. now constructor.
    + now rewrite (SlotRanking_init_invalid item Hitem).
Qed.

Lemma ranking_items_to_ranking (rk : list (string * Qc)) :
  ranking_items (map to_ranking rk) = rk.
Proof.
  induction rk as [|[sid sc] rk IH]; [reflexivity|].
  unfold ranking_items in *. simpl. now rewrite IH.
Qed.

(** With scores in range the function returns, and this is its result. *)
Lemma recommend_best_slot_valid (ui : UserIntent) (slots : list ParkingSlot)
    (r : RankingResult) :
  valid_ranking (res_ranking r) ->
  recommend_best_slot ui slots r =
    Ok {| best_slot_id := res_best_slot_id r;
          recommended_slot_ids :=
            adjust_for_request (flag (ui_is_more_request ui))
              (flag (ui_is_closest_request ui))
              (flag (ui_is_cheapest_request ui)) slots
              (map to_ranking (res_ranking r)) (res_best_slot_id r)
              (ensure_best (res_best_slot_id r)
                 (default [] (res_recommended_slot_ids r)));
          ranking := map to_ranking (res_ranking r);
          explanation_for_user := res_explanation_for_user r;
          has_more_available :=
            Some (default false (res_has_more_available r)) |}.
Proof.
  intros Hv. unfold recommend_best_slot.
  now rewrite (map_outcome_valid _ Hv).
Qed.

(** ** Lists of slot ids *)

Lemma elem_of_without (x y : string) (l : list string) :
  y ∈ without x l <-> y <> x /\ y ∈ l.
Proof. unfold without. now rewrite list_elem_of_filter. Qed.

Lemma without_notin (x : string) (l : list string) :
  x ∉ l -> without x l = l.
Proof.
  induction l as [|y l IH]; intros Hx; [reflexivity|].
  unfold without in *. rewrite filter_cons.
  rewrite not_elem_of_cons in Hx. destruct Hx as [Hne Hx].
  destruct (decide (y <> x)) as [_|Heq]; [now rewrite IH|].
  exfalso. apply Heq. congruence.
Qed.

Lemma elem_of_best_first (best y : string) (l : list string) :
  y ∈ best_first best l <-> y = best \/ y ∈ l.
Proof.
  unfold best_first. rewrite elem_of_cons, elem_of_without. split.
  - intros [H | [_ H]]; [now left | now right].
  - intros [H | H]; [now left|].
    destruct (decide (y = best)); [now left | now right].
Qed.

Lemma NoDup_best_first (best : string) (l : list string) :
  NoDup l -> NoDup (best_first best l).
Proof.
  intros H. unfold best_first. apply NoDup_cons. split.
  - rewrite elem_of_without. now intros [Hne _].
  - now apply NoDup_filter.
Qed.

Lemma head_best_first (best : string) (l : list string) :
  head (best_first best l) = Some best.
Proof. reflexivity. Qed.

Lemma mem_spec (x : string) (l : list string) : mem x l = true <-> x ∈ l.
Proof. apply bool_decide_eq_true. Qed.

(** The two outcomes of the first normalisation. *)
Lemma ensure_best_cases (best : string) (l : list string) :
  ((best ∉ l) /\ ensure_best best l = best :: l)
  \/ (best ∈ l /\ ensure_best best l = l).
Proof.
  unfold ensure_best. destruct (mem best l) eqn:E.
  - apply mem_spec in E. right. split; [exact E|].
    destruct l; [now apply elem_of_nil in E | reflexivity].
  - assert (best ∉ l) as Hn by (rewrite <- mem_spec, E; discriminate).
    left. split; [exact Hn|].
    rewrite orb_true_r. unfold best_first. now rewrite without_notin.
Qed.

Lemma elem_of_ensure_best (best y : string) (l : list string) :
  y ∈ ensure_best best l <-> y = best \/ y ∈ l.
Proof.
  destruct (ensure_best_cases best l) as [[Hn ->] | [Hin ->]].
  - apply elem_of_cons.
  - split; [now right | intros [-> | H]; assumption].
Qed.

Lemma NoDup_ensure_best (best : string) (l : list string) :
  NoDup l -> NoDup (ensure_best best l).
Proof.
  intros H. destruct (ensure_best_cases best l) as [[Hn ->] | [Hin ->]].
  - now apply NoDup_cons.
  - exact H.
Qed.

Lemma ensure_best_not_nil (best : string) (l : list string) :
  ensure_best best l <> [].
Proof.
  destruct (ensure_best_cases best l) as [[Hn ->] | [Hin ->]]; [discriminate|].
  intros ->. now apply elem_of_nil in Hin.
Qed.

Lemma move_best_first_cases (best : string) (l : list string) :
  (head l = Some best /\ move_best_first best l = l)
  \/ (l = [] /\ move_best_first best l = [])
  \/ (l <> [] /\ head l <> Some best
      /\ move_best_first best l = best_first best l).
Proof.
  unfold move_best_first. destruct l as [|y l]; [right; left; easy|].
  simpl. destruct (String.eqb_spec y best) as [-> | Hne]; simpl.
  - now left.
  - right. right. repeat split; [discriminate | congruence].
Qed.

Lemma head_move_best_first (best : string) (l : list string) :
  l <> [] -> head (move_best_first best l) = Some best.
Proof.
  intros Hl.
  destruct (move_best_first_cases best l)
    as [[Hh ->] | [[-> _] | (_ & _ & ->)]]; [exact Hh | easy | reflexivity].
Qed.

Lemma elem_of_move_best_first (best y : string) (l : list string) :
  y ∈ move_best_first best l -> y = best \/ y ∈ l.
Proof.
  destruct (move_best_first_cases best l)
    as [[Hh ->] | [[-> ->] | (_ & _ & ->)]]; [now right | now right|].
  apply elem_of_best_first.
Qed.

Lemma elem_of_move_best_first_in (best y : string) (l : list string) :
  best ∈ l -> y ∈ move_best_first best l <-> y ∈ l.
Proof.
  intros Hb.
  destruct (move_best_first_cases best l)
    as [[Hh ->] | [[-> ->] | (_ & _ & ->)]]; [reflexivity | reflexivity|].
  rewrite elem_of_best_first. split; [now intros [-> | H] | now right].
Qed.

Lemma NoDup_move_best_first (best : string) (l : list string) :
  NoDup l -> NoDup (move_best_first best l).
Proof.
  intros H.
  destruct (move_best_first_cases best l)
    as [[Hh ->] | [[-> ->] | (_ & _ & ->)]]; [exact H | exact H|].
  now apply NoDup_best_first.
Qed.

Lemma elem_of_missing (ids rec : list string) (y : string) :
  y ∈ missing_slot_ids ids rec <-> y ∈ ids /\ y ∉ rec.
Proof. unfold missing_slot_ids. rewrite list_elem_of_filter. tauto. Qed.

(** What the backfilling appends: the sorted missing ids, or nothing. *)
Lemma backfill_cases (slots : list ParkingSlot) (rk : list SlotRanking)
    (rec : list string) :
  backfill slots rk rec = rec
  \/ backfill slots rk rec =
       (rec ++ py_sort_reverse
                 (fallback_key (dict_of sr_slot_id score rk)
                               (dict_of slot_id id slots))
                 (missing_slot_ids (map slot_id slots) rec))%list.
Proof.
  unfold backfill.
  destruct (length rec <? length (map slot_id slots))%nat; [now right | now left].
Qed.

Lemma elem_of_backfill (slots : list ParkingSlot) (rk : list SlotRanking)
    (rec : list string) (y : string) :
  y ∈ backfill slots rk rec -> y ∈ rec \/ y ∈ map slot_id slots.
Proof.
  destruct (backfill_cases slots rk rec) as [-> | ->]; [now left|].
  rewrite elem_of_app, py_sort_reverse_Permutation, elem_of_missing. tauto.
Qed.

Lemma NoDup_backfill (slots : list ParkingSlot) (rk : list SlotRanking)
    (rec : list string) :
  NoDup rec -> NoDup (map slot_id slots) -> NoDup (backfill slots rk rec).
Proof.
  intros Hrec Hids.
  destruct (backfill_cases slots rk rec) as [-> | ->]; [exact Hrec|].
  apply NoDup_app. split; [exact Hrec|]. split.
  - intros x Hx. rewrite py_sort_reverse_Permutation, elem_of_missing. tauto.
  - rewrite py_sort_reverse_Permutation. now apply NoDup_filter.
Qed.

Lemma take_10_or_all (l : list string) :
  (if (10 <? length l)%nat then take 10 l else l) = take 10 l.
Proof.
  destruct (Nat.ltb_spec 10 (length l)); [reflexivity|].
  symmetry. now apply take_ge.
Qed.

Lemma elem_of_take_10 (l : list string) (y : string) : y ∈ take 10 l -> y ∈ l.
Proof.
  rewrite elem_of_take. intros (i & Hi & _). eapply list_elem_of_lookup_2, Hi.
Qed.

(** Every id that comes out was listed by the model, is its best slot, or
    is the id of a candidate. *)
Lemma elem_of_adjust (more closest cheapest : bool) (slots : list ParkingSlot)
    (rk : list SlotRanking) (best : string) (rec : list string) (y : string) :
  y ∈ adjust_for_request more closest cheapest slots rk best rec ->
  y = best \/ y ∈ rec \/ y ∈ map slot_id slots.
Proof.
  unfold adjust_for_request. destruct more.
  - intros H. apply elem_of_move_best_first in H as [H | H]; [now left|].
    apply elem_of_backfill in H. now right.
  - destruct (closest || cheapest).
    + intros H. apply elem_of_move_best_first in H. tauto.
    + rewrite take_10_or_all. intros H. apply elem_of_take_10 in H. tauto.
Qed.

Lemma NoDup_adjust (more closest cheapest : bool) (slots : list ParkingSlot)
    (rk : list SlotRanking) (best : string) (rec : list string) :
  NoDup rec -> NoDup (map slot_id slots) ->
  NoDup (adjust_for_request more closest cheapest slots rk best rec).
Proof.
  intros Hrec Hids. unfold adjust_for_request. destruct more.
  - now apply NoDup_move_best_first, NoDup_backfill.
  - destruct (closest || cheapest).
    + now apply NoDup_move_best_first.
    + rewrite take_10_or_all. eapply sublist_NoDup; [exact Hrec | apply sublist_take].
Qed.

Lemma backfill_not_nil (slots : list ParkingSlot) (rk : list SlotRanking)
    (rec : list string) :
  rec <> [] -> backfill slots rk rec <> [].
Proof.
  intros Hrec. destruct (backfill_cases slots rk rec) as [-> | ->]; [exact Hrec|].
  destruct rec; [easy | discriminate].
Qed.

Lemma adjust_not_nil (more closest cheapest : bool) (slots : list ParkingSlot)
    (rk : list SlotRanking) (best : string) (rec : list string) :
  rec <> [] -> adjust_for_request more closest cheapest slots rk best rec <> [].
Proof.
  intros Hrec. unfold adjust_for_request. destruct more.
  - intros H.
    pose proof (head_move_best_first best _ (backfill_not_nil slots rk rec Hrec)) as Hh.
    rewrite H in Hh. discriminate.
  - destruct (closest || cheapest).
    + intros H. pose proof (head_move_best_first best rec Hrec) as Hh.
      rewrite H in Hh. discriminate.
    + rewrite take_10_or_all. destruct rec; [easy | discriminate].
Qed.

Lemma mode_of_not_normal (ui : UserIntent) :
  mode_of ui <> Normal ->
  flag (ui_is_more_request ui) = true
  \/ flag (ui_is_closest_request ui) || flag (ui_is_cheapest_request ui) = true.
Proof.
  unfold mode_of.
  destruct (flag (ui_is_more_request ui)); [now left|].
  destruct (flag (ui_is_closest_request ui)); [now right|].
  destruct (flag (ui_is_cheapest_request ui)); [now right | easy].
Qed.

Lemma mode_of_normal (ui : UserIntent) :
  mode_of ui = Normal ->
  flag (ui_is_more_request ui) = false
  /\ flag (ui_is_closest_request ui) || flag (ui_is_cheapest_request ui) = false.
Proof.
  unfold mode_of.
  destruct (flag (ui_is_more_request ui)); [discriminate|].
  destruct (flag (ui_is_closest_request ui)); [discriminate|].
  destruct (flag (ui_is_cheapest_request ui)); [discriminate | easy].
Qed.

Lemma mode_of_more (ui : UserIntent) :
  mode_of ui = More -> flag (ui_is_more_request ui) = true.
Proof.
  unfold mode_of.
  destruct (flag (ui_is_more_request ui)); [reflexivity|].
  destruct (flag (ui_is_closest_request ui)); [discriminate|].
  destruct (flag (ui_is_cheapest_request ui)); discriminate.
Qed.

(** ** The reconciled response *)

(** C6 (as amended).  When every score of the returned ranking lies in
    [0,1], the ranking and the explanation reach the response unchanged.
    When some score lies outside [0,1], the bounds declared by
    [SlotRanking] reject it: the call raises a validation error, which the
    endpoint turns into status 400. *)
Theorem ranking_passes_through_when_valid
    (ui : UserIntent) (slots : list ParkingSlot) (r : RankingResult) :
  (valid_ranking (res_ranking r) ->
   exists resp,
     recommend_best_slot ui slots r = Ok resp
     /\ ranking_items (ranking resp) = res_ranking r
     /\ explanation_for_user resp = res_explanation_for_user r)
  /\ (~ valid_ranking (res_ranking r) ->
      recommend_best_slot ui slots r = Raise ValidationError
      /\ recommend_slot ui slots r = Raise (HTTPException 400)).
Proof.
  split.
  - intros Hv. eexists. split; [apply recommend_best_slot_valid, Hv|].
    split; [apply ranking_items_to_ranking | reflexivity].
  - intros Hbad.
    assert (recommend_best_slot ui slots r = Raise ValidationError) as H.
    { unfold recommend_best_slot. now rewrite (map_outcome_invalid _ Hbad). }
    split; [exact H|]. unfold recommend_slot. now rewrite H.
Qed.

Lemma result_plain_valid : valid_ranking (res_ranking result_plain).
Proof.
  repeat constructor; simpl; apply Qcle_alt; vm_compute; discriminate.
Qed.

Lemma ranking_passes_through_when_valid_witness :
  exists resp,
    recommend_best_slot normal_intent two_slots result_plain = Ok resp
    /\ ranking_items (ranking resp) = res_ranking result_plain
    /\ explanation_for_user resp = res_explanation_for_user result_plain.
Proof.
  refine (proj1 (ranking_passes_through_when_valid
                   normal_intent two_slots result_plain) _).
  exact result_plain_valid.
Defined.

(** C6 as stated fails: a score of 3/2 is not surfaced, the call raises. *)
Lemma score_out_of_bounds_raises :
  recommend_best_slot normal_intent two_slots result_bad_score
  = Raise ValidationError.
Proof. vm_compute. reflexivity. Qed.

(** C1 (as amended).  For every request mode and every answer of the
    language model whose scores are in range, the call returns a response
    in which every recommended id is the model's best slot, an id the
    model listed, or the id of a candidate.  So when the model's best slot
    and listed ids are candidate ids, only candidate ids are recommended;
    and when the model's list has no repeated id and the candidates have
    distinct ids, no id is recommended twice. *)
Theorem recommended_ids_sound
    (ui : UserIntent) (slots : list ParkingSlot) (r : RankingResult) :
  valid_ranking (res_ranking r) ->
  let ids := map slot_id slots in
  let listed := default [] (res_recommended_slot_ids r) in
  exists resp,
    recommend_best_slot ui slots r = Ok resp
    /\ (forall sid, sid ∈ recommended_slot_ids resp ->
        sid = res_best_slot_id r \/ sid ∈ listed \/ sid ∈ ids)
    /\ (res_best_slot_id r ∈ ids -> (forall sid, sid ∈ listed -> sid ∈ ids) ->
        forall sid, sid ∈ recommended_slot_ids resp -> sid ∈ ids)
    /\ (NoDup listed -> NoDup ids -> NoDup (recommended_slot_ids resp)).
Proof.
  intros Hv ids listed. eexists.
  split; [apply recommend_best_slot_valid, Hv|]. simpl.
  assert (forall sid,
            sid ∈ adjust_for_request (flag (ui_is_more_request ui))
                    (flag (ui_is_closest_request ui))
                    (flag (ui_is_cheapest_request ui)) slots
                    (map to_ranking (res_ranking r)) (res_best_slot_id r)
                    (ensure_best (res_best_slot_id r) listed) ->
            sid = res_best_slot_id r \/ sid ∈ listed \/ sid ∈ ids) as Hsub.
  { intros sid H. apply elem_of_adjust in H as [H | [H | H]]; [tauto | | tauto].
    apply elem_of_ensure_best in H. tauto. }
  split; [exact Hsub|]. split.
  - intros Hbest Hlisted sid H.
    destruct (Hsub sid H) as [-> | [H' | H']]; [assumption | auto | assumption].
  - intros Hnd Hids. apply NoDup_adjust; [|exact Hids].
    now apply NoDup_ensure_best.
Qed.

Lemma recommended_ids_sound_witness :
  exists resp,
    recommend_best_slot more_intent two_slots result_plain = Ok resp
    /\ (forall sid, sid ∈ recommended_slot_ids resp ->
        sid = "s1" \/ sid ∈ ["s1"; "s2"] \/ sid ∈ map slot_id two_slots)
    /\ ("s1" ∈ map slot_id two_slots ->
        (forall sid, sid ∈ ["s1"; "s2"] -> sid ∈ map slot_id two_slots) ->
        forall sid, sid ∈ recommended_slot_ids resp ->
                    sid ∈ map slot_id two_slots)
    /\ (NoDup ["s1"; "s2"] -> NoDup (map slot_id two_slots) ->
        NoDup (recommended_slot_ids resp)).
Proof.
  refine (recommended_ids_sound more_intent two_slots result_plain _).
  exact result_plain_valid.
Defined.

(** C1 as stated fails: in a normal request a repeated id and an id that
    no candidate carries stay in the recommended list. *)
Lemma dirty_list_passes_through :
  recommended (recommend_best_slot normal_intent two_slots result_dirty)
  = Some ["s1"; "s1"; "zz"]
  /\ ("zz" ∉ map slot_id two_slots)
  /\ ~ NoDup ["s1"; "s1"; "zz"].
Proof.
  split; [vm_compute; reflexivity|]. split.
  - simpl. rewrite !not_elem_of_cons. repeat split; try discriminate.
    apply not_elem_of_nil.
  - intros H. apply NoDup_cons in H as [H _]. apply H. apply elem_of_cons.
    now left.
Qed.

(** Where the best slot id is first.  For every answer whose scores are in
    range the response carries the model's best slot id.  That id is the
    first recommended id in the modes More, Closest and Cheapest; in mode
    Normal it is first when the model's list is empty, does not contain
    it, or already starts with it. *)
Lemma best_slot_first_where_enforced
    (ui : UserIntent) (slots : list ParkingSlot) (r : RankingResult) :
  valid_ranking (res_ranking r) ->
  let best := res_best_slot_id r in
  let listed := default [] (res_recommended_slot_ids r) in
  exists resp,
    recommend_best_slot ui slots r = Ok resp
    /\ best_slot_id resp = best
    /\ (mode_of ui <> Normal -> head (recommended_slot_ids resp) = Some best)
    /\ (mode_of ui = Normal ->
        listed = [] \/ (best ∉ listed) \/ head listed = Some best ->
        head (recommended_slot_ids resp) = Some best).
Proof.
  intros Hv best listed. eexists.
  split; [apply recommend_best_slot_valid, Hv|]. simpl.
  split; [reflexivity|]. fold best listed.
  pose proof (ensure_best_not_nil best listed) as Hne.
  split.
  - intros Hm. unfold adjust_for_request.
    destruct (mode_of_not_normal ui Hm) as [-> | Hc].
    + apply head_move_best_first, backfill_not_nil, Hne.
    + destruct (flag (ui_is_more_request ui)).
      * apply head_move_best_first, backfill_not_nil, Hne.
      * rewrite Hc. apply head_move_best_first, Hne.
  - intros Hm Hcase. destruct (mode_of_normal ui Hm) as [Hmore Hc].
    unfold adjust_for_request. rewrite Hmore, Hc, take_10_or_all.
    destruct (ensure_best_cases best listed) as [[Hn ->] | [Hin ->]];
      [reflexivity|].
    destruct Hcase as [Hnil | [Hn | Hh]].
    + rewrite Hnil in Hin. now apply elem_of_nil in Hin.
    + contradiction.
    + destruct listed; [discriminate | exact Hh].
Qed.

(** C2 is violated in mode Normal.  With candidates s1 and s2, a normal
    request and an answer that names s1 best and lists s2 before s1, the
    response carries s1 as best slot id but its first recommended id is
    s2: the branch of the normal request lacks the step that the two
    other branches apply to put the best id first. *)
Theorem best_slot_not_first_in_normal_mode :
  mode_of normal_intent = Normal
  /\ exists resp,
       recommend_best_slot normal_intent two_slots result_best_second = Ok resp
       /\ best_slot_id resp = "s1"
       /\ recommended_slot_ids resp = ["s2"; "s1"]
       /\ head (recommended_slot_ids resp) <> Some (best_slot_id resp).
Proof.
  split; [reflexivity|]. eexists. split; [vm_compute; reflexivity|].
  simpl. repeat split. discriminate.
Qed.

(** The same request in mode More gets the best id first. *)
Example best_slot_first_in_more_mode :
  recommended (recommend_best_slot more_intent two_slots result_best_second)
  = Some ["s1"; "s2"].
Proof. vm_compute. reflexivity. Qed.

(** In mode Normal the cut to 10 entries can even remove the best id from
    the list. *)
Example best_slot_cut_off_in_normal_mode :
  recommended (recommend_best_slot normal_intent two_slots result_best_last)
  = Some ["a0"; "a1"; "a2"; "a3"; "a4"; "a5"; "a6"; "a7"; "a8"; "a9"].
Proof. vm_compute. reflexivity. Qed.

(** C5 (as amended).  An empty candidate list is not rejected: when the
    scores are in range the endpoint answers with a response that carries
    the model's best slot id and a non-empty recommended list made of that
    id and the ids the model listed. *)
Theorem empty_candidates_are_answered (ui : UserIntent) (r : RankingResult) :
  valid_ranking (res_ranking r) ->
  exists resp,
    recommend_slot ui [] r = Ok resp
    /\ best_slot_id resp = res_best_slot_id r
    /\ recommended_slot_ids resp <> []
    /\ (forall sid, sid ∈ recommended_slot_ids resp ->
        sid = res_best_slot_id r
        \/ sid ∈ default [] (res_recommended_slot_ids r)).
Proof.
  intros Hv. eexists. split.
  - unfold recommend_slot. rewrite (recommend_best_slot_valid ui [] r Hv).
    reflexivity.
  - simpl. split; [reflexivity|]. split.
    + apply adjust_not_nil, ensure_best_not_nil.
    + intros sid H. apply elem_of_adjust in H as [H | [H | H]].
      * now left.
      * apply elem_of_ensure_best in H. exact H.
      * now apply elem_of_nil in H.
Qed.

Lemma empty_candidates_are_answered_witness :
  exists resp,
    recommend_slot normal_intent [] result_plain = Ok resp
    /\ best_slot_id resp = "s1"
    /\ recommended_slot_ids resp <> []
    /\ (forall sid, sid ∈ recommended_slot_ids resp ->
        sid = "s1" \/ sid ∈ ["s1"; "s2"]).
Proof.
  refine (empty_candidates_are_answered normal_intent result_plain _).
  exact result_plain_valid.
Defined.

(** C5 as stated fails: a request over no candidate at all is answered,
    not rejected. *)
Lemma empty_candidates_not_rejected :
  exists resp,
    recommend_slot normal_intent [] result_plain = Ok resp
    /\ recommended_slot_ids resp = ["s1"; "s2"].
Proof. eexists. split; [vm_compute; reflexivity | reflexivity]. Qed.

(** ** The request for more *)

Lemma foldl_insert_lookup_other {A V} (k : A -> string) (v : A -> V)
    (l : list A) (m : gmap string V) (key : string) :
  key ∉ map k l ->
  foldl (fun m y => <[k y := v y]> m) m l !! key = m !! key.
Proof.
  revert m. induction l as [|y l IH]; intros m Hkey; [reflexivity|].
  simpl in *. apply not_elem_of_cons in Hkey as [Hne Hkey].
  rewrite IH by exact Hkey. now apply lookup_insert_ne.
Qed.

Lemma foldl_insert_lookup {A V} (k : A -> string) (v : A -> V)
    (l : list A) (m : gmap string V) (x : A) :
  NoDup (map k l) -> x ∈ l ->
  foldl (fun m y => <[k y := v y]> m) m l !! k x = Some (v x).
Proof.
  revert m. induction l as [|y l IH]; intros m Hnd Hx.
  - now apply elem_of_nil in Hx.
  - simpl in Hnd. apply NoDup_cons in Hnd as [Hy Hnd]. simpl.
    apply elem_of_cons in Hx as [-> | Hx]; [|now apply IH].
    rewrite foldl_insert_lookup_other by exact Hy.
    apply lookup_insert_eq.
Qed.

Lemma dict_of_lookup {A V} (k : A -> string) (v : A -> V) (l : list A) (x : A) :
  NoDup (map k l) -> x ∈ l -> dict_of k v l !! k x = Some (v x).
Proof. apply foldl_insert_lookup. Qed.

Lemma move_best_first_app (best : string) (l k : list string) :
  l <> [] -> best ∉ k ->
  move_best_first best (l ++ k) = (move_best_first best l ++ k)%list.
Proof.
  intros Hl Hk. destruct l as [|y l]; [easy|].
  unfold move_best_first. simpl.
  destruct (negb (String.eqb y best)); [|reflexivity].
  unfold best_first, without.
  change (y :: (l ++ k)%list) with ((y :: l) ++ k)%list.
  rewrite filter_app. fold (without best k).
  now rewrite (without_notin best k Hk).
Qed.

(** Under the hypotheses of a request for more, the backfilling always
    amounts to appending the sorted missing ids. *)
Lemma backfill_subset (slots : list ParkingSlot) (rk : list SlotRanking)
    (rec : list string) :
  NoDup rec -> (forall y, y ∈ rec -> y ∈ map slot_id slots) ->
  backfill slots rk rec =
    (rec ++ py_sort_reverse
              (fallback_key (dict_of sr_slot_id score rk)
                            (dict_of slot_id id slots))
              (missing_slot_ids (map slot_id slots) rec))%list.
Proof.
  intros Hnd Hsub. unfold backfill.
  destruct (Nat.ltb_spec (length rec) (length (map slot_id slots)))
    as [_ | Hle]; [reflexivity|].
  assert (rec ≡ₚ map slot_id slots) as Hperm.
  { apply submseteq_length_Permutation; [|exact Hle].
    now apply NoDup_submseteq. }
  destruct (missing_slot_ids (map slot_id slots) rec) as [|y m] eqn:E.
  - unfold py_sort_reverse. simpl. now rewrite app_nil_r.
  - exfalso. assert (y ∈ missing_slot_ids (map slot_id slots) rec) as Hy
      by (rewrite E; apply elem_of_cons; now left).
    apply elem_of_missing in Hy as [Hy Hn]. apply Hn. now rewrite Hperm.
Qed.

Lemma fallback_sorted (slots : list ParkingSlot) (rk : list SlotRanking)
    (ids : list string) :
  NoDup (map slot_id slots) ->
  fallback_ordered slots rk
    (py_sort_reverse (fallback_key (dict_of sr_slot_id score rk)
                                   (dict_of slot_id id slots)) ids).
Proof.
  intros Hnd i j sa sb Hij Hi Hj Ha Hb.
  pose proof (py_sort_reverse_lookup _ ids i j _ _ Hij Hi Hj) as Hle.
  apply key_le_spec in Hle. unfold fallback_key in Hle. simpl in Hle.
  rewrite (dict_of_lookup slot_id id slots sa Hnd Ha) in Hle.
  rewrite (dict_of_lookup slot_id id slots sb Hnd Hb) in Hle.
  unfold oracle_score. simpl in Hle.
  destruct Hle as [Hlt | [Heq Hd]]; [now left|].
  right. split; [now symmetry | lia].
Qed.

(** The two steps that put the best id in front, one after the other, on
    a list without repeated id: the best id, then the other ids of the
    list in their order. *)
Lemma best_in_front (best : string) (listed : list string) :
  NoDup listed ->
  move_best_first best (ensure_best best listed) = best :: without best listed.
Proof.
  intros Hnd.
  destruct (ensure_best_cases best listed) as [[Hn ->] | [Hin ->]].
  - unfold move_best_first. simpl. rewrite String.eqb_refl. simpl.
    now rewrite without_notin.
  - destruct (move_best_first_cases best listed)
      as [[Hh ->] | [[-> _] | (_ & _ & ->)]].
    + destruct listed as [|y tl]; [discriminate|].
      injection Hh as ->. apply NoDup_cons in Hnd as [Hy _].
      unfold without. rewrite filter_cons.
      destruct (decide (best <> best)) as [Hne|_]; [now elim Hne|].
      fold (without best tl). now rewrite without_notin.
    + now apply elem_of_nil in Hin.
    + reflexivity.
Qed.

(** C3 (as amended).  In mode More, when the candidates have distinct
    ids, the scores are in range, the model's list is a duplicate-free
    list of candidate ids and the model's best slot id is a candidate id,
    the response recommends exactly as many ids as there are candidates,
    each candidate id once, the best id first.  The list is the best id,
    then the other ids of the model's list in the model's order, then the
    candidates that the model did not list (the best id apart), by
    descending score of the ranking (0 without an entry) and, at equal
    score, by ascending distance. *)
Theorem more_returns_every_candidate
    (ui : UserIntent) (slots : list ParkingSlot) (r : RankingResult) :
  let ids := map slot_id slots in
  let best := res_best_slot_id r in
  let listed := default [] (res_recommended_slot_ids r) in
  mode_of ui = More ->
  valid_ranking (res_ranking r) ->
  NoDup ids ->
  NoDup listed -> (forall sid, sid ∈ listed -> sid ∈ ids) ->
  best ∈ ids ->
  exists resp tail,
    recommend_best_slot ui slots r = Ok resp
    /\ recommended_slot_ids resp = (best :: (without best listed ++ tail))%list
    /\ length (recommended_slot_ids resp) = length slots
    /\ recommended_slot_ids resp ≡ₚ ids
    /\ head (recommended_slot_ids resp) = Some best
    /\ (forall sid, sid ∈ tail <-> sid ∈ ids /\ (sid ∉ listed) /\ sid <> best)
    /\ fallback_ordered slots (ranking resp) tail.
Proof.
  intros ids best listed Hmode Hv Hids Hnd Hsub Hbest.
  set (rk := map to_ranking (res_ranking r)).
  set (rec1 := ensure_best best listed).
  set (tail := py_sort_reverse
                 (fallback_key (dict_of sr_slot_id score rk)
                               (dict_of slot_id id slots))
                 (missing_slot_ids ids rec1)).
  assert (forall y, y ∈ rec1 <-> y = best \/ y ∈ listed) as Hel1
    by (intros y; apply elem_of_ensure_best).
  assert (NoDup rec1) as Hnd1 by now apply NoDup_ensure_best.
  assert (rec1 <> []) as Hne1 by apply ensure_best_not_nil.
  assert (best ∈ rec1) as Hb1 by (apply Hel1; now left).
  assert (forall y, y ∈ rec1 -> y ∈ ids) as Hsub1.
  { intros y Hy. apply Hel1 in Hy as [-> | Hy]; [exact Hbest | now apply Hsub]. }
  assert (forall y, y ∈ tail <-> y ∈ ids /\ y ∉ rec1) as Helt.
  { intros y. unfold tail.
    now rewrite py_sort_reverse_Permutation, elem_of_missing. }
  assert (best ∉ tail) as Hbt by (rewrite Helt; tauto).
  assert (move_best_first best rec1 ≡ₚ rec1) as Hfront.
  { apply NoDup_Permutation; [now apply NoDup_move_best_first | exact Hnd1|].
    intros y. now apply elem_of_move_best_first_in. }
  assert ((move_best_first best rec1 ++ tail)%list ≡ₚ ids) as Hperm.
  { rewrite Hfront. apply NoDup_Permutation; [|exact Hids|].
    - apply NoDup_app. split; [exact Hnd1|]. split.
      + intros y Hy. rewrite Helt. tauto.
      + unfold tail. rewrite py_sort_reverse_Permutation.
        now apply NoDup_filter.
    - intros y. rewrite elem_of_app, Helt. split.
      + intros [Hy | [Hy _]]; [now apply Hsub1 | exact Hy].
      + intros Hy. destruct (decide (y ∈ rec1)); [now left | now right]. }
  assert (move_best_first best rec1 = best :: without best listed) as Hshape
    by (apply best_in_front, Hnd).
  exists {| best_slot_id := best;
            recommended_slot_ids := (move_best_first best rec1 ++ tail)%list;
            ranking := rk;
            explanation_for_user := res_explanation_for_user r;
            has_more_available :=
              Some (default false (res_has_more_available r)) |},
    tail.
  split.
  - rewrite (recommend_best_slot_valid ui slots r Hv).
    unfold adjust_for_request. rewrite (mode_of_more ui Hmode).
    fold best listed rec1 rk.
    rewrite (backfill_subset slots rk rec1 Hnd1 Hsub1). fold ids tail.
    now rewrite (move_best_first_app best rec1 tail Hne1 Hbt).
  - simpl. split; [now rewrite Hshape|]. split.
    + rewrite Hperm. unfold ids. apply length_map.
    + split; [exact Hperm|]. split.
      * rewrite Hshape. reflexivity.
      * split.
        -- intros sid. rewrite Helt, Hel1. split.
           ++ intros [Hy Hn]. repeat split; [exact Hy | tauto | tauto].
           ++ intros (Hy & Hn & Hne). split; [exact Hy | tauto].
        -- apply fallback_sorted, Hids.
Qed.

Lemma four_slots_distinct : NoDup (map slot_id four_slots).
Proof. refine (bool_decide_unpack _ _); vm_compute; exact I. Qed.

Lemma result_two_of_four_valid : valid_ranking (res_ranking result_two_of_four).
Proof.
  repeat constructor; simpl; apply Qcle_alt; vm_compute; discriminate.
Qed.

Lemma more_returns_every_candidate_witness :
  exists resp tail,
    recommend_best_slot more_intent four_slots result_two_of_four = Ok resp
    /\ recommended_slot_ids resp
       = ("s1" :: (without "s1" ["s2"; "s1"] ++ tail))%list
    /\ length (recommended_slot_ids resp) = length four_slots
    /\ recommended_slot_ids resp ≡ₚ map slot_id four_slots
    /\ head (recommended_slot_ids resp) = Some "s1"
    /\ (forall sid, sid ∈ tail <->
                    sid ∈ map slot_id four_slots
                    /\ (sid ∉ ["s2"; "s1"]) /\ sid <> "s1")
    /\ fallback_ordered four_slots (ranking resp) tail.
Proof.
  refine (more_returns_every_candidate
            more_intent four_slots result_two_of_four _ _ _ _ _ _).
  - reflexivity.
  - exact result_two_of_four_valid.
  - exact four_slots_distinct.
  - refine (bool_decide_unpack _ _); vm_compute; exact I.
  - intros sid H. apply elem_of_cons in H as [-> | H];
      [|apply list_elem_of_singleton in H as ->];
      refine (bool_decide_unpack _ _); vm_compute; exact I.
  - refine (bool_decide_unpack _ _); vm_compute; exact I.
Defined.

(** On that request the list is s1, then s2 from the model's list, then
    the two other candidates, s4 with its score of 7/10 before s3 with
    1/5, although s3 comes first among the candidates. *)
Example more_over_four_slots :
  recommended (recommend_best_slot more_intent four_slots result_two_of_four)
  = Some ["s1"; "s2"; "s4"; "s3"].
Proof. vm_compute. reflexivity. Qed.

(** C3 as stated fails: when the model names a best slot that is not a
    candidate, a request for more over two candidates gets two ids, but
    one of them is the unknown id and a candidate is left out. *)
Lemma unknown_best_drops_a_candidate :
  mode_of more_intent = More
  /\ (forall sid, sid ∈ ["s1"] -> sid ∈ map slot_id two_slots)
  /\ recommended (recommend_best_slot more_intent two_slots result_unknown_best)
     = Some ["s9"; "s1"]
  /\ "s2" ∈ map slot_id two_slots
  /\ ("s2" ∉ ["s9"; "s1"])
  /\ ("s9" ∉ map slot_id two_slots).
Proof.
  split; [reflexivity|]. split.
  { intros sid H. apply list_elem_of_singleton in H as ->.
    apply elem_of_cons. now left. }
  split; [vm_compute; reflexivity|]. split.
  { simpl. apply elem_of_cons. right. apply elem_of_cons. now left. }
  split; simpl; rewrite !not_elem_of_cons;
    repeat split; try discriminate; apply not_elem_of_nil.
Qed.

(** * Further properties of the code *)

(** ** Blank strings *)

Lemma lstrip_empty_iff (s : string) :
  lstrip s = "" <-> all_space s = true.
Proof.
  induction s as [|c s IH]; simpl; [easy|].
  destruct (is_space c); simpl; [exact IH | easy].
Qed.

Lemma lstrip_head (s : string) (c : ascii) (r : string) :
  lstrip s = String c r -> is_space c = false.
Proof.
  induction s as [|d s IH]; simpl; [discriminate|].
  destruct (is_space d) eqn:E; [exact IH|].
  intros [= <- _]. exact E.
Qed.

Lemma rstrip_nonspace_head (c : ascii) (r : string) :
  is_space c = false -> is_empty (rstrip (String c r)) = false.
Proof.
  intros H. destruct (rstrip_cons_nonspace c r H) as [r' ->]. reflexivity.
Qed.

Lemma blank_iff_all_space (s : string) :
  is_empty (strip s) = true <-> all_space s = true.
Proof.
  rewrite <- lstrip_empty_iff. unfold strip.
  destruct (lstrip s) as [|c r] eqn:E; [easy|].
  rewrite (rstrip_nonspace_head c r (lstrip_head s c r E)). easy.
Qed.

(** X1.  A location or a start hour counts as missing exactly when it is
    absent or made of white space only (the empty string included). *)
Theorem missing_iff_blank (o : option string) :
  (missing_location o = true <->
   o = None \/ exists s, o = Some s /\ all_space s = true)
  /\ (missing_start_hour o = true <->
      o = None \/ exists s, o = Some s /\ all_space s = true).
Proof.
  assert (forall s, is_empty s || is_empty (strip s) = true
                    <-> all_space s = true) as H.
  { intros s. rewrite <- blank_iff_all_space. destruct s; simpl; [easy|].
    reflexivity. }
  split; destruct o as [s|]; simpl; rewrite ?H; split;
    try (intros Hs; right; now exists s);
    try (intros [Hn | (s' & [= <-] & Hs)]; [discriminate | exact Hs]);
    try (now left); reflexivity.
Qed.

(** ** The time validator, beyond the accepted tokens *)

Lemma parse_matching (s : string) :
  matches_HHmm s = true ->
  parse_hour_minute s = Some (token_hour s, token_minute s)
  /\ 0 <= token_hour s /\ 0 <= token_minute s.
Proof.
  intros Hs.
  destruct (matches_HHmm_inv s Hs) as (a & b & c & d & Ha & Hb & Hc & Hd & Heq).
  destruct Heq as [-> | ->].
  - rewrite parse_hhmm by assumption.
    repeat split; apply two_digits_nonneg; assumption.
  - rewrite parse_hhmm_nl by assumption.
    repeat split; apply two_digits_nonneg; assumption.
Qed.

(** The validator's answer on any token that is not blank. *)
Lemma validate_nonblank (now : Clock) (s : string) :
  is_empty (strip s) = false ->
  validate_start_hour now (Some s) =
    if negb (matches_HHmm s) then (false, Some format_error)
    else if 23 <? token_hour s then (false, Some hour_error)
    else if 59 <? token_minute s then (false, Some minute_error)
    else if (token_hour s <? clock_hour now)
            || ((token_hour s =? clock_hour now)
                && (token_minute s <? clock_minute now))
    then (false, Some (past_error s (strftime_HM now)))
    else (true, None).
Proof.
  intros Hb. unfold validate_start_hour. rewrite Hb.
  destruct (matches_HHmm s) eqn:Hs; [|reflexivity]. cbn [negb].
  destruct (parse_matching s Hs) as (-> & Hh & Hm).
  destruct (Z.ltb_spec (token_hour s) 0); [lia|].
  rewrite Z.gtb_ltb. cbn [orb].
  destruct (23 <? token_hour s); [reflexivity|].
  destruct (Z.ltb_spec (token_minute s) 0); [lia|].
  rewrite Z.gtb_ltb. reflexivity.
Qed.

(** X2.  The validator accepts nothing else than what it should: when it
    answers "valid" there is no message, and the token is blank or is
    accepted by the pattern with an hour at most 23, a minute at most 59
    and a time that is not earlier than the clock. *)
Theorem validate_accepts_only (now : Clock) (s : string) (m : option string) :
  validate_start_hour now (Some s) = (true, m) ->
  m = None
  /\ (all_space s = true
      \/ (matches_HHmm s = true
          /\ 0 <= token_hour s <= 23 /\ 0 <= token_minute s <= 59
          /\ ~ in_the_past now s)).
Proof.
  destruct (is_empty (strip s)) eqn:Hb.
  - unfold validate_start_hour. rewrite Hb. intros [= <-].
    split; [reflexivity|]. left. now apply blank_iff_all_space.
  - rewrite (validate_nonblank now s Hb).
    destruct (matches_HHmm s) eqn:Hs; [|discriminate]. cbn [negb].
    destruct (parse_matching s Hs) as (_ & Hh & Hm).
    destruct (Z.ltb_spec 23 (token_hour s)); [discriminate|].
    destruct (Z.ltb_spec 59 (token_minute s)); [discriminate|].
    destruct (Z.ltb_spec (token_hour s) (clock_hour now)); [discriminate|].
    destruct (Z.eqb_spec (token_hour s) (clock_hour now));
      [destruct (Z.ltb_spec (token_minute s) (clock_minute now));
         [discriminate|] |];
      intros [= <-]; (split; [reflexivity|]); right;
      (repeat split; try assumption); unfold in_the_past; lia.
Qed.

Lemma validate_accepts_only_witness :
  @None string = None
  /\ (all_space "18:55" = true
      \/ (matches_HHmm "18:55" = true
          /\ 0 <= token_hour "18:55" <= 23 /\ 0 <= token_minute "18:55" <= 59
          /\ ~ in_the_past now_1852 "18:55")).
Proof.
  refine (validate_accepts_only now_1852 "18:55" None _).
  vm_compute. reflexivity.
Defined.

(** X3.  On a token that is not blank the validator rejects, in this
    order: a shape other than two digits, a colon, two digits (format
    message); an hour above 23 (hour message); a minute above 59 (minute
    message).  Once the pattern has accepted the token its conversion to
    numbers never fails. *)
Theorem validate_rejects_malformed (now : Clock) (s : string) :
  is_empty (strip s) = false ->
  (matches_HHmm s = false ->
   validate_start_hour now (Some s) = (false, Some format_error))
  /\ (matches_HHmm s = true ->
      parse_hour_minute s = Some (token_hour s, token_minute s))
  /\ (matches_HHmm s = true -> 23 < token_hour s ->
      validate_start_hour now (Some s) = (false, Some hour_error))
  /\ (matches_HHmm s = true -> token_hour s <= 23 -> 59 < token_minute s ->
      validate_start_hour now (Some s) = (false, Some minute_error)).
Proof.
  intros Hb. rewrite (validate_nonblank now s Hb).
  split; [now intros ->|]. split; [intros Hs; apply parse_matching, Hs|].
  split.
  - intros -> Hh. cbn [negb]. apply Z.ltb_lt in Hh. now rewrite Hh.
  - intros -> Hh Hm. cbn [negb].
    destruct (Z.ltb_spec 23 (token_hour s)); [lia|].
    apply Z.ltb_lt in Hm. now rewrite Hm.
Qed.

Lemma validate_rejects_malformed_witness :
  validate_start_hour now_1852 (Some "24:00") = (false, Some hour_error).
Proof.
  refine (proj1 (proj2 (proj2 (validate_rejects_malformed now_1852 "24:00" _)))
            _ _).
  - reflexivity.
  - reflexivity.
  - vm_compute. reflexivity.
Defined.

(** ** The intent resolver, beyond the single missing field *)

Lemma valid_has_no_message (now : Clock) (o : option string) (m : option string) :
  validate_start_hour now o = (true, m) -> m = None.
Proof.
  destruct o as [s|]; [|now intros [= <-]].
  destruct (is_empty (strip s)) eqn:Hb.
  - unfold validate_start_hour. rewrite Hb. now intros [= <-].
  - rewrite (validate_nonblank now s Hb).
    repeat match goal with
           | |- context [if ?c then _ else _] => destruct c
           end; intros [= <-] || discriminate; reflexivity.
Qed.

Lemma must_ask_cases (now : Clock) (g : RawIntentGuess) :
  must_ask now g <->
  (start_hour_given (g_start_hour g) = false
   \/ (validate_start_hour now (g_start_hour g)).1 = false
   \/ default false (g_needs_clarification g)
      || missing_duration (g_duration_minutes g)
      || missing_location (g_location_query g) = true).
Proof.
  unfold must_ask. rewrite start_hour_given_missing, negb_false_iff.
  rewrite !orb_true_iff. split.
  - intros [Hn | [[f Hf] | Hv]].
    + right. right. left. left. now rewrite Hn.
    + destruct f; simpl in Hf; tauto.
    + tauto.
  - intros [Hs | [Hv | [[Hn | Hd] | Hl]]].
    + right. left. now exists StartHour.
    + tauto.
    + left. destruct (g_needs_clarification g) as [[|]|]; easy.
    + right. left. now exists Duration.
    + right. left. now exists Location.
Qed.

(** X4.  The resolver answers with a clarification exactly when the
    language model asked for one, a mandatory field is missing, or the
    start hour does not pass the validator; the model's flag is never
    overruled in the other direction. *)
Theorem clarification_iff_must_ask (now : Clock) (g : RawIntentGuess) :
  (exists msg, parse_intent now g = Ok (placeholder msg)) <-> must_ask now g.
Proof.
  rewrite must_ask_cases.
  destruct (start_hour_given (g_start_hour g)) eqn:Hgiven.
  - destruct (validate_start_hour now (g_start_hour g)) as [[|] err] eqn:Hv.
    + destruct (default false (g_needs_clarification g)
                || missing_duration (g_duration_minutes g)
                || missing_location (g_location_query g)) eqn:Hc.
      * rewrite (parse_intent_accepted_clarifies now g err Hgiven Hv Hc).
        split; [tauto | eauto].
      * split; [|simpl; intros [?|[?|?]]; discriminate].
        intros [msg H].
        pose proof (parse_intent_complete now g err _ Hgiven Hv Hc H) as Hn.
        discriminate.
    + rewrite (parse_intent_rejected now g err Hgiven Hv). simpl.
      split; [tauto | eauto].
  - rewrite (parse_intent_no_start now g Hgiven). split; [tauto | eauto].
Qed.

Lemma clarification_iff_must_ask_witness :
  exists msg, parse_intent now_1852 guess_past_start = Ok (placeholder msg).
Proof.
  refine (proj2 (clarification_iff_must_ask now_1852 guess_past_start) _).
  right. right. vm_compute. reflexivity.
Defined.

(** X5.  A response that does not ask for clarification is complete: its
    location is the model's and is not blank, its duration is the model's
    and at least 1, its start hour is the model's token, which the
    validator accepts at that time; price, preferences, radius and the
    three mode flags are the model's (an absent flag reads false).  The
    fallback values of the source (location "", duration 60, start hour
    None) never reach a response. *)
Theorem complete_response_invariant
    (now : Clock) (g : RawIntentGuess) (resp : ParseIntentResponse) :
  parse_intent now g = Ok resp ->
  needs_clarification resp = Some false ->
  g_location_query g = Some (location_query resp)
  /\ all_space (location_query resp) = false
  /\ g_duration_minutes g = Some (duration_minutes resp)
  /\ 1 <= duration_minutes resp
  /\ (exists tok, start_hour resp = Some tok /\ all_space tok = false)
  /\ g_start_hour g = start_hour resp
  /\ validate_start_hour now (start_hour resp) = (true, None)
  /\ max_price resp = g_max_price g
  /\ preferences resp = g_preferences g
  /\ requested_radius_km resp = g_requested_radius_km g
  /\ is_more_request resp = Some (flag (g_is_more_request g))
  /\ is_closest_request resp = Some (flag (g_is_closest_request g))
  /\ is_cheapest_request resp = Some (flag (g_is_cheapest_request g)).
Proof.
  intros Hp Hn.
  destruct (start_hour_given (g_start_hour g)) eqn:Hgiven;
    [|rewrite (parse_intent_no_start now g Hgiven) in Hp;
      injection Hp as <-; discriminate].
  destruct (validate_start_hour now (g_start_hour g)) as [[|] err] eqn:Hv;
    [|rewrite (parse_intent_rejected now g err Hgiven Hv) in Hp;
      injection Hp as <-; discriminate].
  destruct (default false (g_needs_clarification g)
            || missing_duration (g_duration_minutes g)
            || missing_location (g_location_query g)) eqn:Hc;
    [rewrite (parse_intent_accepted_clarifies now g err Hgiven Hv Hc) in Hp;
     injection Hp as <-; discriminate|].
  pose proof (valid_has_no_message now _ _ Hv) as ->.
  apply orb_false_iff in Hc as [Hc Hl]. apply orb_false_iff in Hc as [Hf Hd].
  revert Hp. unfold parse_intent, parse_intent_body.
  rewrite Hgiven, Hv. cbn [negb]. rewrite Hf, Hd, Hl. cbn [orb].
  pose proof Hgiven as Hms. rewrite start_hour_given_missing in Hms.
  apply negb_true_iff in Hms. rewrite Hms.
  destruct (g_location_query g) as [loc|] eqn:El; [|discriminate Hl].
  destruct (g_duration_minutes g) as [d|] eqn:Ed; [|discriminate Hd].
  destruct (g_start_hour g) as [tok|] eqn:Es; [|discriminate Hgiven].
  simpl in Hl, Hd, Hms. apply orb_false_iff in Hl as [Hl1 Hl2].
  apply orb_false_iff in Hms as [Hs1 Hs2].
  unfold truthy, missing_duration. rewrite Hl1. cbn [negb default].
  unfold ParseIntentResponse_init. cbn [duration_minutes max_price
    requested_radius_km].
  match goal with |- context [if ?c then Ok ?r else _] => destruct c end;
    cbn; [|discriminate].
  intros [= <-]. cbn.
  assert (forall s, is_empty (strip s) = false -> all_space s = false) as Hbl.
  { intros s Hs. rewrite <- not_true_iff_false, <- blank_iff_all_space.
    now rewrite Hs. }
  repeat split; try reflexivity.
  - now apply Hbl.
  - apply Z.ltb_ge in Hd. exact Hd.
  - exists tok. split; [reflexivity | now apply Hbl].
  - exact Hv.
Qed.

Lemma complete_response_invariant_witness :
  all_space (location_query complete_response) = false
  /\ g_duration_minutes (guess_complete None)
     = Some (duration_minutes complete_response)
  /\ 1 <= duration_minutes complete_response.
Proof.
  pose proof (complete_response_invariant now_1852 (guess_complete None)
                complete_response eq_refl eq_refl)
    as (_ & Hloc & Hd & Hd1 & _).
  exact (conj Hloc (conj Hd Hd1)).
Defined.

(** X6.  When the language model wrote no clarification text and the
    start hour, if given, passes the validator, the prompt that the
    resolver synthesises for any non-empty set of missing fields names
    exactly the missing fields: each missing one and none that is
    present. *)
Theorem synthesized_prompt_names_missing_fields
    (now : Clock) (g : RawIntentGuess) :
  truthy (g_clarification_message g) = false ->
  (start_hour_given (g_start_hour g) = true ->
   (validate_start_hour now (g_start_hour g)).1 = true) ->
  (exists f, is_missing g f = true) ->
  exists msg,
    parse_intent now g = Ok (placeholder msg)
    /\ forall f, mentions f msg = is_missing g f.
Proof.
  intros Htext Hvalid Hsome.
  exists (default_text (missing_location (g_location_query g))
            (missing_duration (g_duration_minutes g))
            (missing_start_hour (g_start_hour g))).
  split.
  - destruct (start_hour_given (g_start_hour g)) eqn:Hgiven.
    + specialize (Hvalid eq_refl).
      destruct (validate_start_hour now (g_start_hour g)) as [valid err] eqn:Hv.
      simpl in Hvalid. subst valid.
      pose proof Hgiven as Hms. rewrite start_hour_given_missing in Hms.
      apply negb_true_iff in Hms.
      rewrite (parse_intent_accepted_clarifies now g err Hgiven Hv).
      * unfold clarification_text. now rewrite Htext, Hms.
      * destruct Hsome as [[| |] Hf]; simpl in Hf.
        -- rewrite Hf. apply orb_true_r.
        -- rewrite Hf, orb_true_r. reflexivity.
        -- congruence.
    + pose proof Hgiven as Hms. rewrite start_hour_given_missing in Hms.
      apply negb_false_iff in Hms.
      rewrite (parse_intent_no_start now g Hgiven).
      unfold clarification_text. now rewrite Htext, Hms.
  - assert (missing_location (g_location_query g)
            || missing_duration (g_duration_minutes g)
            || missing_start_hour (g_start_hour g) = true) as Hany.
    { destruct Hsome as [[| |] Hf]; simpl in Hf; rewrite Hf;
        rewrite ?orb_true_r; reflexivity. }
    intros f. unfold is_missing.
    destruct (missing_location (g_location_query g)),
             (missing_duration (g_duration_minutes g)),
             (missing_start_hour (g_start_hour g));
      try discriminate Hany; destruct f; vm_compute; reflexivity.
Qed.

Lemma synthesized_prompt_names_missing_fields_witness :
  exists msg,
    parse_intent now_1852 guess_only_location = Ok (placeholder msg)
    /\ forall f, mentions f msg = is_missing guess_only_location f.
Proof.
  refine (synthesized_prompt_names_missing_fields
            now_1852 guess_only_location _ _ _).
  - reflexivity.
  - intros H. vm_compute in H. discriminate H.
  - exists Duration. reflexivity.
Defined.

(** On an answer of the language model, the resolver fails only when no
    clarification is needed and a constraint of the response model is
    violated. *)
Lemma parse_intent_raises_iff (now : Clock) (g : RawIntentGuess) (e : exn) :
  parse_intent now g = Raise e <->
  e = HTTPException 400
  /\ ~ must_ask now g
  /\ (ge0_or_none (g_max_price g) = false
      \/ ge0_or_none (g_requested_radius_km g) = false).
Proof.
  rewrite must_ask_cases.
  destruct (start_hour_given (g_start_hour g)) eqn:Hgiven;
    [|rewrite (parse_intent_no_start now g Hgiven);
      split; [discriminate | intros (_ & H & _); tauto]].
  destruct (validate_start_hour now (g_start_hour g)) as [[|] err] eqn:Hv;
    [|rewrite (parse_intent_rejected now g err Hgiven Hv);
      split; [discriminate | intros (_ & H & _); simpl in H; tauto]].
  destruct (default false (g_needs_clarification g)
            || missing_duration (g_duration_minutes g)
            || missing_location (g_location_query g)) eqn:Hc;
    [rewrite (parse_intent_accepted_clarifies now g err Hgiven Hv Hc);
     split; [discriminate | intros (_ & H & _); tauto]|].
  assert (~ (true = false \/ (true, err).1 = false \/ false = true)) as Hno
    by (simpl; intros [?|[?|?]]; discriminate).
  apply orb_false_iff in Hc as [Hc Hl]. apply orb_false_iff in Hc as [Hf Hd].
  unfold parse_intent, parse_intent_body.
  rewrite Hgiven, Hv. cbn [negb]. rewrite Hf, Hd, Hl. cbn [orb].
  pose proof Hgiven as Hms. rewrite start_hour_given_missing in Hms.
  apply negb_true_iff in Hms. rewrite Hms.
  unfold ParseIntentResponse_init. cbn [duration_minutes max_price
    requested_radius_km].
  destruct (g_duration_minutes g) as [d|] eqn:Ed; [|discriminate Hd].
  simpl in Hd. apply Z.ltb_ge in Hd.
  change (default 60 (Some d)) with d.
  destruct (Z.leb_spec 1 d); [|lia]. cbn [andb].
  destruct (ge0_or_none (g_max_price g)),
           (ge0_or_none (g_requested_radius_km g)); cbn.
  - split; [discriminate | intros (_ & _ & [?|?]); discriminate].
  - split; [intros [= <-] | intros (-> & _); reflexivity].
    split; [reflexivity|]. split; [exact Hno | now right].
  - split; [intros [= <-] | intros (-> & _); reflexivity].
    split; [reflexivity|]. split; [exact Hno | now left].
  - split; [intros [= <-] | intros (-> & _); reflexivity].
    split; [reflexivity|]. split; [exact Hno | now left].
Qed.

Lemma ge0_or_none_false (x : option Qc) :
  ge0_or_none x = false <-> negative x.
Proof.
  unfold ge0_or_none, negative. destruct x as [q|].
  - split.
    + intros H. exists q. split; [reflexivity|].
      destruct (q ?= 0)%Qc eqn:E; try discriminate H.
      exact (proj2 (Qlt_alt _ _) E).
    + intros (q' & [= <-] & Hlt).
      assert ((q ?= 0)%Qc = Lt) as -> by exact (proj1 (Qlt_alt _ _) Hlt).
      reflexivity.
  - split; [discriminate | intros (q & H & _); discriminate H].
Qed.

(** X7.  Given the outcome of the call of the language model, which is a
    failure of the call or an answer whose fields have the types of the
    schema sent with the prompt, the intent endpoint fails exactly when
    the call failed, or the answer needs no clarification and carries a
    maximum price or a radius below zero.  The status is then 400, and a
    clarification is never turned into an error. *)
Theorem parse_intent_error_iff
    (now : Clock) (answer : option RawIntentGuess) (e : exn) :
  parse_intent_request now answer = Raise e <->
  e = HTTPException 400
  /\ (answer = None
      \/ exists g,
           answer = Some g
           /\ ~ must_ask now g
           /\ (negative (g_max_price g)
               \/ negative (g_requested_radius_km g))).
Proof.
  destruct answer as [g|]; simpl.
  - rewrite parse_intent_raises_iff, !ge0_or_none_false. split.
    + intros (-> & Hno & Hneg). split; [reflexivity|]. right. now exists g.
    + intros (-> & [H | (g' & [= <-] & Hno & Hneg)]); [discriminate H|].
      now repeat split.
  - split.
    + intros [= <-]. split; [reflexivity | now left].
    + now intros (-> & _).
Qed.

Lemma parse_intent_error_iff_witness :
  parse_intent_request now_1852 (Some (guess_complete (Some (Q2Qc (-5)))))
  = Raise (HTTPException 400)
  /\ parse_intent_request now_1852 None = Raise (HTTPException 400).
Proof.
  split.
  - refine (proj2 (parse_intent_error_iff now_1852
                     (Some (guess_complete (Some (Q2Qc (-5))))) _) _).
    split; [reflexivity|]. right. eexists. split; [reflexivity|]. split.
    + intros [H | [[f H] | H]].
      * discriminate H.
      * destruct f; vm_compute in H; discriminate H.
      * vm_compute in H. discriminate H.
    + left. eexists. split; [reflexivity|]. reflexivity.
  - refine (proj2 (parse_intent_error_iff now_1852 None _) _).
    split; [reflexivity | now left].
Defined.

(** ** The conversation context, beyond the budget of the lines *)

Lemma retained_lines_spec (history : list ConversationMessage) :
  exists taken rest,
    reverse (last_n CONVERSATION_HISTORY_WINDOW history) = (taken ++ rest)%list
    /\ retained_lines history = map msg_str (reverse taken)
    /\ (total_length (map msg_str taken) <= 2000)%nat
    /\ (rest = []
        \/ exists m rest', rest = m :: rest'
           /\ (2000 < total_length (map msg_str taken)
                      + String.length (msg_str m))%nat).
Proof.
  destruct (accumulate_spec
              (reverse (last_n CONVERSATION_HISTORY_WINDOW history))
              [] 0%nat eq_refl)
    as (taken & rest & Hrev & Hacc & Hsum & Hstop).
  { unfold MAX_CONTEXT_LENGTH. lia. }
  exists taken, rest. split; [exact Hrev|]. split.
  - unfold retained_lines. rewrite Hacc. simpl. now rewrite map_reverse.
  - unfold MAX_CONTEXT_LENGTH in *. simpl in Hsum, Hstop.
    split; [exact Hsum | exact Hstop].
Qed.

Lemma context_header_length : String.length context_header = 25%nat.
Proof. reflexivity. Qed.

(** X8.  The context handed to the language model is never longer than
    2026 characters: at most 2000 characters of retained lines between a
    header of 25 characters and a final newline. *)
Theorem conversation_context_length (history : list ConversationMessage) :
  (String.length (conversation_context history) <= 2026)%nat.
Proof.
  destruct (retained_lines_spec history)
    as (taken & rest & _ & Hret & Hsum & _).
  unfold conversation_context.
  destruct history as [|m h]; [simpl; lia|].
  rewrite Hret.
  destruct (map msg_str (reverse taken)) as [|l ls] eqn:E; [simpl; lia|].
  rewrite <- E, !length_append, context_header_length, length_join.
  rewrite map_reverse, total_length_reverse.
  change (String.length nl) with 1%nat. lia.
Qed.

Lemma last_n_snoc {A} (n : nat) (l : list A) (x : A) :
  last_n (S n) (l ++ [x]) = (last_n n l ++ [x])%list.
Proof.
  unfold last_n. rewrite length_app. simpl.
  rewrite drop_app_le by lia. f_equal. f_equal. lia.
Qed.

Lemma msg_str_length (m : ConversationMessage) :
  (String.length (text m) + 5 <= String.length (msg_str m))%nat.
Proof.
  unfold msg_str. destruct (is_user m);
    rewrite !length_append; change (String.length nl) with 1%nat; simpl; lia.
Qed.

(** X9.  When the most recent message is too long for the budget (a text
    of more than 1995 characters), the loop stops at once and the context
    is empty, however short the older messages are. *)
Theorem oversized_last_message_empties_context
    (older : list ConversationMessage) (m : ConversationMessage) :
  (1995 < String.length (text m))%nat ->
  retained_lines (older ++ [m]) = []
  /\ conversation_context (older ++ [m]) = "".
Proof.
  intros Hlen. pose proof (msg_str_length m) as Hm.
  assert (retained_lines (older ++ [m]) = []) as Hret.
  { unfold retained_lines, CONVERSATION_HISTORY_WINDOW.
    rewrite last_n_snoc, reverse_snoc. simpl.
    destruct (Nat.ltb_spec MAX_CONTEXT_LENGTH
                (String.length (msg_str m))) as [_|Hfit].
    - reflexivity.
    - unfold MAX_CONTEXT_LENGTH in Hfit. lia. }
  split; [exact Hret|]. unfold conversation_context. rewrite Hret.
  now destruct (older ++ [m])%list.
Qed.

Lemma oversized_last_message_empties_context_witness :
  retained_lines (short_history
                  ++ [ {| text := long_text; is_user := true |} ]) = []
  /\ conversation_context
       (short_history ++ [ {| text := long_text; is_user := true |} ]) = "".
Proof.
  refine (oversized_last_message_empties_context short_history
            {| text := long_text; is_user := true |} _).
  vm_compute. lia.
Defined.

Lemma total_length_app_le (l k : list string) :
  (total_length l <= total_length (l ++ k))%nat.
Proof. rewrite total_length_app. lia. Qed.

(** X10.  When the formatted lines of the last 10 messages fit the
    budget together, all of them are retained, oldest first, and the
    context is the header, these lines and a newline. *)
Theorem context_keeps_all_when_it_fits (history : list ConversationMessage) :
  let lines := map msg_str (last_n CONVERSATION_HISTORY_WINDOW history) in
  (total_length lines <= 2000)%nat ->
  retained_lines history = lines
  /\ (history <> [] ->
      conversation_context history = context_header ++ join lines ++ nl).
Proof.
  intros lines Hfit.
  destruct (retained_lines_spec history)
    as (taken & rest & Hrev & Hret & Hsum & Hstop).
  assert (rest = []) as ->.
  { destruct Hstop as [-> | (m & rest' & -> & Hover)]; [reflexivity|].
    exfalso. unfold lines in Hfit.
    rewrite <- total_length_reverse, <- map_reverse, Hrev in Hfit.
    rewrite map_app, total_length_app in Hfit. simpl in Hfit. lia. }
  rewrite app_nil_r in Hrev.
  assert (retained_lines history = lines) as Hall.
  { rewrite Hret, <- Hrev, reverse_involutive. reflexivity. }
  split; [exact Hall|].
  intros Hne. unfold conversation_context. rewrite Hall.
  destruct history as [|m h]; [easy|].
  destruct lines as [|l ls] eqn:E; [|reflexivity].
  exfalso. unfold lines in E.
  assert (length (last_n CONVERSATION_HISTORY_WINDOW (m :: h)) = 0%nat) as Hz
    by (rewrite <- (length_map msg_str), E; reflexivity).
  unfold last_n, CONVERSATION_HISTORY_WINDOW in Hz.
  rewrite length_drop in Hz. simpl in Hz. lia.
Qed.

Lemma context_keeps_all_when_it_fits_witness :
  retained_lines short_history = map msg_str short_history
  /\ (short_history <> [] ->
      conversation_context short_history
      = context_header ++ join (map msg_str short_history) ++ nl).
Proof.
  refine (context_keeps_all_when_it_fits short_history _).
  vm_compute. lia.
Defined.

(** ** The reconciled list, mode by mode *)

Lemma mode_of_not_more (ui : UserIntent) :
  mode_of ui <> More -> flag (ui_is_more_request ui) = false.
Proof.
  unfold mode_of. destruct (flag (ui_is_more_request ui)); [easy | reflexivity].
Qed.

Lemma mode_of_closest_cheapest (ui : UserIntent) :
  mode_of ui = Closest \/ mode_of ui = Cheapest ->
  flag (ui_is_more_request ui) = false
  /\ flag (ui_is_closest_request ui) || flag (ui_is_cheapest_request ui) = true.
Proof.
  unfold mode_of.
  destruct (flag (ui_is_more_request ui)); [intros [?|?]; discriminate|].
  destruct (flag (ui_is_closest_request ui)); [easy|].
  destruct (flag (ui_is_cheapest_request ui)); [easy|].
  intros [?|?]; discriminate.
Qed.

(** X11.  A normal request never gets more than 10 recommended ids: the
    list is the model's list, with the best id put in front when the
    model's list lacks it, cut after its tenth entry. *)
Theorem normal_request_is_capped
    (ui : UserIntent) (slots : list ParkingSlot) (r : RankingResult) :
  mode_of ui = Normal ->
  valid_ranking (res_ranking r) ->
  exists resp,
    recommend_best_slot ui slots r = Ok resp
    /\ recommended_slot_ids resp
       = take 10 (ensure_best (res_best_slot_id r)
                    (default [] (res_recommended_slot_ids r)))
    /\ (length (recommended_slot_ids resp) <= 10)%nat.
Proof.
  intros Hm Hv. eexists. split; [apply recommend_best_slot_valid, Hv|].
  destruct (mode_of_normal ui Hm) as [Hmore Hc]. simpl.
  unfold adjust_for_request. rewrite Hmore, Hc, take_10_or_all.
  split; [reflexivity|]. rewrite length_take. lia.
Qed.

Lemma normal_request_is_capped_witness :
  exists resp,
    recommend_best_slot normal_intent two_slots result_best_last = Ok resp
    /\ recommended_slot_ids resp
       = take 10 (ensure_best (res_best_slot_id result_best_last)
                    (default [] (res_recommended_slot_ids result_best_last)))
    /\ (length (recommended_slot_ids resp) <= 10)%nat.
Proof.
  refine (normal_request_is_capped normal_intent two_slots result_best_last _ _).
  - reflexivity.
  - constructor.
Defined.

(** X12.  Outside mode More the candidate slots have no influence on the
    response: whatever list of slots is passed, the same answer of the
    language model gives the same outcome. *)
Theorem candidates_ignored_outside_more
    (ui : UserIntent) (slots slots' : list ParkingSlot) (r : RankingResult) :
  mode_of ui <> More ->
  recommend_best_slot ui slots r = recommend_best_slot ui slots' r.
Proof.
  intros Hm. unfold recommend_best_slot.
  destruct (map_outcome SlotRanking_init (res_ranking r)); [|reflexivity].
  unfold adjust_for_request. now rewrite (mode_of_not_more ui Hm).
Qed.

Lemma candidates_ignored_outside_more_witness :
  recommend_best_slot closest_intent two_slots result_plain
  = recommend_best_slot closest_intent [] result_plain.
Proof.
  refine (candidates_ignored_outside_more closest_intent two_slots []
            result_plain _).
  vm_compute. discriminate.
Defined.

(** X13.  In modes Closest and Cheapest, when the model's list has no
    repeated id, the recommended list is the best id followed by the other
    ids of the model's list in the model's order: nothing is added from
    the candidates and nothing is cut. *)
Theorem closest_cheapest_keep_model_order
    (ui : UserIntent) (slots : list ParkingSlot) (r : RankingResult) :
  mode_of ui = Closest \/ mode_of ui = Cheapest ->
  valid_ranking (res_ranking r) ->
  NoDup (default [] (res_recommended_slot_ids r)) ->
  exists resp,
    recommend_best_slot ui slots r = Ok resp
    /\ recommended_slot_ids resp
       = res_best_slot_id r
         :: without (res_best_slot_id r)
              (default [] (res_recommended_slot_ids r)).
Proof.
  intros Hm Hv Hnd. eexists. split; [apply recommend_best_slot_valid, Hv|].
  destruct (mode_of_closest_cheapest ui Hm) as [Hmore Hc]. simpl.
  unfold adjust_for_request. rewrite Hmore, Hc.
  set (best := res_best_slot_id r).
  set (listed := default [] (res_recommended_slot_ids r)) in *.
  destruct (ensure_best_cases best listed) as [[Hn ->] | [Hin ->]].
  - unfold move_best_first. simpl. rewrite String.eqb_refl. simpl.
    now rewrite without_notin.
  - destruct (move_best_first_cases best listed)
      as [[Hh ->] | [[-> _] | (_ & _ & ->)]].
    + destruct listed as [|y tl]; [discriminate|].
      injection Hh as ->. apply NoDup_cons in Hnd as [Hy _].
      unfold without. rewrite filter_cons.
      destruct (decide (best <> best)) as [Hne|_]; [now elim Hne|].
      fold (without best tl). now rewrite without_notin.
    + now apply elem_of_nil in Hin.
    + reflexivity.
Qed.

Lemma closest_cheapest_keep_model_order_witness :
  exists resp,
    recommend_best_slot closest_intent two_slots result_best_second = Ok resp
    /\ recommended_slot_ids resp = "s1" :: without "s1" ["s2"; "s1"].
Proof.
  refine (closest_cheapest_keep_model_order closest_intent two_slots
            result_best_second _ _ _).
  - left. reflexivity.
  - constructor.
  - apply NoDup_cons. split; [|apply NoDup_singleton].
    rewrite list_elem_of_singleton. discriminate.
Defined.

(** ** The sort of the missing ids *)

Section Stability.
Context {A : Type} (key : A -> Qc * Z).

Lemma key_lt_irrefl (a : Qc * Z) : key_lt a a = false.
Proof.
  apply not_true_iff_false. rewrite key_lt_spec.
  intros [H | [_ H]]; [exact (Qclt_irreflexive _ H) | lia].
Qed.

Lemma filter_insert_by_key (v : Qc * Z) (x : A) (l : list A) :
  filter (fun y => key y = v) (insert_by_key key x l)
  = filter (fun y => key y = v) (x :: l).
Proof.
  induction l as [|y l IH]; [reflexivity|].
  simpl. destruct (key_lt (key y) (key x)) eqn:E; [|reflexivity].
  rewrite filter_cons, IH, !filter_cons.
  destruct (decide (key y = v)) as [Hy|Hy];
    destruct (decide (key x = v)) as [Hx|Hx]; try reflexivity.
  rewrite Hy, Hx, key_lt_irrefl in E. discriminate.
Qed.

Lemma filter_py_sort (v : Qc * Z) (l : list A) :
  filter (fun y => key y = v) (py_sort key l) = filter (fun y => key y = v) l.
Proof.
  induction l as [|x l IH]; [reflexivity|].
  simpl. rewrite filter_insert_by_key, !filter_cons, IH. reflexivity.
Qed.

(** X14.  The sort with [reverse=True] is stable: the elements that
    share a sort key come out in the order in which they went in. *)
Theorem py_sort_reverse_stable (v : Qc * Z) (l : list A) :
  filter (fun y => key y = v) (py_sort_reverse key l)
  = filter (fun y => key y = v) l.
Proof.
  unfold py_sort_reverse.
  now rewrite filter_reverse, filter_py_sort, filter_reverse,
    reverse_involutive.
Qed.
End Stability.

(** Two candidates at the same distance and without a score keep the
    order of the request behind the best slot. *)
Example ties_keep_request_order :
  recommended (recommend_best_slot more_intent
                 [mk_slot "s3" 350; mk_slot "s2" 350; mk_slot "s1" 150]
                 (mk_result "s1" ["s1"] []))
  = Some ["s1"; "s3"; "s2"].
Proof. vm_compute. reflexivity. Qed.

Lemma foldl_insert_lookup_in {A V} (k : A -> string) (v : A -> V)
    (l : list A) (m : gmap string V) (sid : string) :
  sid ∈ map k l ->
  exists x, x ∈ l /\ k x = sid
            /\ foldl (fun m y => <[k y := v y]> m) m l !! sid = Some (v x).
Proof.
  revert m. induction l as [|y l IH]; intros m Hin.
  - now apply elem_of_nil in Hin.
  - simpl in *. destruct (decide (sid ∈ map k l)) as [Hl | Hl].
    + destruct (IH (<[k y := v y]> m) Hl) as (x & Hx & Hk & Hlook).
      exists x. split; [now apply elem_of_cons; right | easy].
    + apply elem_of_cons in Hin as [-> | Hin]; [|contradiction].
      exists y. split; [now apply elem_of_cons; left|]. split; [reflexivity|].
      rewrite foldl_insert_lookup_other by exact Hl. apply lookup_insert_eq.
Qed.

(** X15.  The key by which a missing id is sorted always carries the
    distance of a candidate with that id (the last one, should several
    share it): the constant 999999 that the source keeps for an id
    without slot is never used. *)
Theorem fallback_key_uses_a_distance
    (slots : list ParkingSlot) (rk : list SlotRanking)
    (rec : list string) (sid : string) :
  sid ∈ missing_slot_ids (map slot_id slots) rec ->
  exists slot,
    slot ∈ slots /\ slot_id slot = sid
    /\ fallback_key (dict_of sr_slot_id score rk) (dict_of slot_id id slots) sid
       = (oracle_score rk sid, - distance_m slot).
Proof.
  intros Hin. apply elem_of_missing in Hin as [Hin _].
  destruct (foldl_insert_lookup_in slot_id id slots ∅ sid Hin)
    as (slot & Hs & Hk & Hlook).
  exists slot. split; [exact Hs|]. split; [exact Hk|].
  unfold fallback_key, dict_of, oracle_score. now rewrite Hlook.
Qed.

Lemma fallback_key_uses_a_distance_witness :
  exists slot,
    slot ∈ two_slots /\ slot_id slot = "s2"
    /\ fallback_key (dict_of sr_slot_id score [])
         (dict_of slot_id id two_slots) "s2"
       = (oracle_score [] "s2", - distance_m slot).
Proof.
  refine (fallback_key_uses_a_distance two_slots [] ["s1"] "s2" _).
  apply elem_of_missing. split.
  - simpl. apply elem_of_cons. right. apply elem_of_cons. now left.
  - rewrite list_elem_of_singleton. discriminate.
Defined.

Lemma elem_of_move_best_first_keeps (best y : string) (l : list string) :
  y ∈ l -> y ∈ move_best_first best l.
Proof.
  intros Hy.
  destruct (move_best_first_cases best l)
    as [[_ ->] | [[-> ->] | (_ & _ & ->)]]; [exact Hy | exact Hy|].
  apply elem_of_best_first. now right.
Qed.

(** X16.  A request for more never loses an id: the best id and every
    id the model listed are recommended, and when that list is shorter
    than the list of candidates, so is the id of every candidate. *)
Theorem more_request_keeps_and_backfills
    (ui : UserIntent) (slots : list ParkingSlot) (r : RankingResult) :
  mode_of ui = More ->
  valid_ranking (res_ranking r) ->
  let listed := default [] (res_recommended_slot_ids r) in
  exists resp,
    recommend_best_slot ui slots r = Ok resp
    /\ res_best_slot_id r ∈ recommended_slot_ids resp
    /\ (forall sid, sid ∈ listed -> sid ∈ recommended_slot_ids resp)
    /\ ((length (ensure_best (res_best_slot_id r) listed) < length slots)%nat ->
        forall slot, slot ∈ slots ->
                     slot_id slot ∈ recommended_slot_ids resp).
Proof.
  intros Hm Hv listed. eexists.
  split; [apply recommend_best_slot_valid, Hv|]. simpl.
  unfold adjust_for_request. rewrite (mode_of_more ui Hm). fold listed.
  set (best := res_best_slot_id r). set (rk := map to_ranking (res_ranking r)).
  assert (forall y, y ∈ ensure_best best listed ->
                    y ∈ move_best_first best
                          (backfill slots rk (ensure_best best listed)))
    as Hkeep.
  { intros y Hy. apply elem_of_move_best_first_keeps.
    destruct (backfill_cases slots rk (ensure_best best listed)) as [-> | ->];
      [exact Hy | apply elem_of_app; now left]. }
  split; [apply Hkeep, elem_of_ensure_best; now left|].
  split; [intros sid Hs; apply Hkeep, elem_of_ensure_best; now right|].
  intros Hshort slot Hslot. apply elem_of_move_best_first_keeps.
  unfold backfill. rewrite length_map.
  apply Nat.ltb_lt in Hshort. rewrite Hshort.
  destruct (decide (slot_id slot ∈ ensure_best best listed)) as [Hy | Hy];
    apply elem_of_app; [now left | right].
  rewrite py_sort_reverse_Permutation. apply elem_of_missing. split; [|exact Hy].
  clear -Hslot. induction Hslot; simpl; apply elem_of_cons; [now left | now right].
Qed.

Lemma more_request_keeps_and_backfills_witness :
  exists resp,
    recommend_best_slot more_intent three_slots result_far_first = Ok resp
    /\ "s3" ∈ recommended_slot_ids resp
    /\ (forall sid, sid ∈ ["s3"] -> sid ∈ recommended_slot_ids resp)
    /\ ((length (ensure_best "s3" ["s3"]) < length three_slots)%nat ->
        forall slot, slot ∈ three_slots ->
                     slot_id slot ∈ recommended_slot_ids resp).
Proof.
  refine (more_request_keeps_and_backfills more_intent three_slots
            result_far_first _ _).
  - reflexivity.
  - constructor.
Defined.

(** ** Geocoding *)

Lemma geocode_body_ok (q : string) (data : GeoData) (a : GeocodeAnswer) :
  geocode_body q data = inr a <->
  geo_status data = Some "OK"
  /\ exists result rest geometry location,
       geo_results data = Some (result :: rest)
       /\ geo_geometry result = Some geometry
       /\ geo_location geometry = Some location
       /\ geo_lat location = Some (ans_lat a)
       /\ geo_lng location = Some (ans_lng a)
       /\ geo_formatted_address result = Some (ans_formatted_address a).
Proof.
  unfold geocode_body. split.
  - destruct (bool_decide (geo_status data = Some "OK")) eqn:Hs; cbn [negb].
    + apply bool_decide_eq_true in Hs.
      destruct (geo_results data) as [[|result rest]|] eqn:Hr;
        simpl; try discriminate.
      destruct (geo_geometry result) as [geometry|] eqn:Hg; [|discriminate].
      destruct (geo_location geometry) as [location|] eqn:Hl; [|discriminate].
      destruct (geo_lat location) as [lat|] eqn:Hlat; [|discriminate].
      destruct (geo_lng location) as [lng|] eqn:Hlng; [|discriminate].
      destruct (geo_formatted_address result) as [addr|] eqn:Ha;
        [|discriminate].
      intros [= <-]. split; [exact Hs|].
      exists result, rest, geometry, location. simpl. easy.
    + repeat match goal with
             | |- context [if ?c then _ else _] => destruct c
             end; discriminate.
  - intros (Hs & result & rest & geometry & location
            & Hr & Hg & Hl & Hlat & Hlng & Ha).
    rewrite (bool_decide_eq_true_2 _ Hs). cbn [negb].
    rewrite Hr. simpl. rewrite Hg, Hl, Hlat, Hlng, Ha.
    now destruct a.
Qed.

(** X17.  The geocoding endpoint answers with coordinates exactly when
    the service's body has status "OK" and a first result that carries a
    location with latitude and longitude and a formatted address; the
    answer is taken from that first result, the other results are not
    looked at. *)
Theorem geocode_success_iff
    (q : string) (reply : HttpReply) (resp : GeocodeResponse) :
  geocode_location q reply = Http200 resp <->
  exists data result rest geometry location,
    reply = JsonBody data
    /\ geo_status data = Some "OK"
    /\ geo_results data = Some (result :: rest)
    /\ geo_geometry result = Some geometry
    /\ geo_location geometry = Some location
    /\ geo_lat location = Some (gc_lat resp)
    /\ geo_lng location = Some (gc_lng resp)
    /\ geo_formatted_address result = Some (gc_formatted_address resp).
Proof.
  unfold geocode_location, geocode. split.
  - destruct reply as [e | e | data]; try discriminate.
    destruct (geocode_body q data) as [e | a] eqn:Hb; [discriminate|].
    intros [= <-]. apply geocode_body_ok in Hb
      as (Hs & result & rest & geometry & location & H).
    exists data, result, rest, geometry, location. simpl. easy.
  - intros (data & result & rest & geometry & location
            & -> & Hs & Hr & Hg & Hl & Hlat & Hlng & Ha).
    assert (geocode_body q data
            = inr {| ans_lat := gc_lat resp; ans_lng := gc_lng resp;
                     ans_formatted_address := gc_formatted_address resp |})
      as ->.
    { apply geocode_body_ok. split; [exact Hs|].
      exists result, rest, geometry, location. simpl. easy. }
    simpl. now destruct resp.
Qed.

(** X18.  Whatever goes wrong in geocoding reaches the caller as status
    400, never 500, and the detail starts with "Geocoding error: " or,
    for a failure of the HTTP exchange, with "Failed to geocode
    location: ". *)
Theorem geocode_failures_are_400
    (q : string) (reply : HttpReply) (code : Z) (detail : string) :
  geocode_location q reply = HttpError code detail ->
  code = 400
  /\ (String.prefix "Geocoding error: " detail = true
      \/ (String.prefix "Failed to geocode location: " detail = true
          /\ exists e, reply = TransportError e)).
Proof.
  unfold geocode_location, geocode.
  destruct reply as [e | e | data].
  - intros [= <- <-]. split; [reflexivity|]. right.
    split; [apply prefix_append | now exists e].
  - intros [= <- <-]. split; [reflexivity|]. left. apply prefix_append.
  - destruct (geocode_body q data) as [e | a]; [|discriminate].
    intros [= <- <-]. split; [reflexivity|]. left. apply prefix_append.
Qed.

Lemma geocode_failures_are_400_witness :
  400 = 400
  /\ (String.prefix "Geocoding error: "
        ("Geocoding error: " ++ "Expecting value") = true
      \/ (String.prefix "Failed to geocode location: "
            ("Geocoding error: " ++ "Expecting value") = true
          /\ exists e, DecodeError "Expecting value" = TransportError e)).
Proof.
  refine (geocode_failures_are_400 "FSEGA" (DecodeError "Expecting value")
            400 ("Geocoding error: " ++ "Expecting value") _).
  reflexivity.
Defined.

Lemma append_nil_r (s : string) : s ++ "" = s.
Proof.
  induction s as [|c s IH]; [reflexivity|]. rewrite append_cons. now f_equal.
Qed.

Lemma contains_suffix (pre s : string) : contains s (pre ++ s) = true.
Proof.
  rewrite <- (append_nil_r s) at 2. apply contains_append.
Qed.

(** X19.  When the service's status is not "OK", the endpoint answers
    400 and the detail contains the service's error message, or "Unknown
    geocoding error" when the body has none. *)
Theorem geocode_status_failure_shows_message (q : string) (data : GeoData) :
  geo_status data <> Some "OK" ->
  exists detail,
    geocode_location q (JsonBody data) = HttpError 400 detail
    /\ contains (default "Unknown geocoding error" (geo_error_message data))
                detail = true.
Proof.
  intros Hs. unfold geocode_location, geocode, geocode_body.
  rewrite (bool_decide_eq_false_2 _ Hs). cbn [negb].
  set (msg := default "Unknown geocoding error" (geo_error_message data)).
  repeat match goal with
         | |- context [if ?c then _ else _] => destruct c
         end; eexists; (split; [reflexivity|]);
    unfold denied_message; repeat rewrite <- append_assoc;
    apply contains_suffix.
Qed.

Lemma geocode_status_failure_shows_message_witness :
  exists detail,
    geocode_location "FSEGA" (JsonBody body_denied) = HttpError 400 detail
    /\ contains "The provided API key is invalid." detail = true.
Proof.
  refine (geocode_status_failure_shows_message "FSEGA" body_denied _).
  discriminate.
Defined.

(** X20.  A body with status "OK" and no result (the list absent or
    empty) is answered with status 400 and the detail "Geocoding error: No
    geocoding results found for: " followed by the query. *)
Theorem geocode_no_result (q : string) (data : GeoData) :
  geo_status data = Some "OK" ->
  default [] (geo_results data) = [] ->
  geocode_location q (JsonBody data)
  = HttpError 400 ("Geocoding error: No geocoding results found for: " ++ q).
Proof.
  intros Hs Hr. unfold geocode_location, geocode, geocode_body.
  rewrite (bool_decide_eq_true_2 _ Hs). cbn [negb]. rewrite Hr.
  reflexivity.
Qed.

Lemma geocode_no_result_witness :
  geocode_location "Atlantis" (JsonBody body_zero)
  = HttpError 400
      ("Geocoding error: No geocoding results found for: " ++ "Atlantis").
Proof.
  refine (geocode_no_result "Atlantis" body_zero _ _); reflexivity.
Defined.

Example geocode_first_result :
  geocode_location "FSEGA" (JsonBody body_ok)
  = Http200 {| gc_lat := Q2Qc (4677 # 100); gc_lng := Q2Qc (2359 # 100);
               gc_formatted_address := "FSEGA, Cluj-Napoca" |}.
Proof. reflexivity. Qed.

(** ** Extraction of the JSON text *)

Lemma substring_of_refl (s : string) : substring_of s s.
Proof. exists "", "". now rewrite append_nil, append_nil_r. Qed.

Lemma substring_of_trans (x y z : string) :
  substring_of x y -> substring_of y z -> substring_of x z.
Proof.
  intros (p1 & q1 & ->) (p2 & q2 & ->).
  exists (p2 ++ p1), (q1 ++ q2). now rewrite !append_assoc.
Qed.

Lemma lstrip_substring (s : string) : exists pre, s = pre ++ lstrip s.
Proof.
  induction s as [|c s [pre IH]]; [now exists ""|].
  simpl. destruct (is_space c); [|now exists ""].
  exists (String c pre). rewrite append_cons. now f_equal.
Qed.

Lemma rstrip_substring (s : string) : exists post, s = rstrip s ++ post.
Proof.
  induction s as [|c s [post IH]]; [now exists ""|].
  simpl. destruct (rstrip s) as [|d r] eqn:E.
  - rewrite append_nil in IH. destruct (is_space c).
    + exists (String c s). reflexivity.
    + exists s. reflexivity.
  - exists post. rewrite append_cons. now f_equal.
Qed.

Lemma strip_substring (s : string) : substring_of (strip s) s.
Proof.
  destruct (lstrip_substring s) as [pre Hpre].
  destruct (rstrip_substring (lstrip s)) as [post Hpost].
  exists pre, post. unfold strip. now rewrite <- Hpost.
Qed.

Lemma string_drop_substring (n : nat) (s : string) :
  exists pre, s = pre ++ string_drop n s.
Proof.
  revert s. induction n as [|n IH]; intros s; [now exists ""|].
  destruct s as [|c s]; [now exists ""|].
  destruct (IH s) as [pre Hpre]. exists (String c pre).
  simpl. rewrite append_cons. now f_equal.
Qed.

Lemma string_take_substring (n : nat) (s : string) :
  exists post, s = string_take n s ++ post.
Proof.
  revert s. induction n as [|n IH]; intros s; [now exists s|].
  destruct s as [|c s]; [now exists ""|].
  destruct (IH s) as [post Hpost]. exists post.
  simpl. rewrite append_cons. now f_equal.
Qed.

Lemma slice_substring (start stop : nat) (s : string) :
  substring_of (slice start stop s) s.
Proof.
  destruct (string_drop_substring start s) as [pre Hpre].
  destruct (string_take_substring (stop - start) (string_drop start s))
    as [post Hpost].
  exists pre, post. unfold slice. now rewrite <- Hpost.
Qed.

Lemma unfence_substring (s : string) : substring_of (unfence s) s.
Proof.
  unfold unfence.
  repeat match goal with
         | |- context [if ?c then _ else _] => destruct c
         | |- context [match ?o with Some _ => _ | None => _ end] => destruct o
         end;
    try apply substring_of_refl;
    (eapply substring_of_trans; [apply strip_substring | apply slice_substring]).
Qed.

Lemma braces_substring (s : string) : substring_of (braces s) s.
Proof.
  unfold braces.
  repeat match goal with
         | |- context [if ?c then _ else _] => destruct c
         | |- context [match ?o with Some _ => _ | None => _ end] => destruct o
         end;
    try apply substring_of_refl; apply slice_substring.
Qed.

(** X21.  The text handed to the JSON parser is always a piece of the
    reply: the extraction only cuts, it never adds or changes a
    character. *)
Theorem json_text_is_a_piece (response_text : string) :
  substring_of (json_text response_text) response_text.
Proof.
  unfold json_text.
  eapply substring_of_trans; [apply braces_substring|].
  eapply substring_of_trans; [apply unfence_substring | apply strip_substring].
Qed.

Lemma string_drop_append (p r : string) :
  string_drop (String.length p) (p ++ r) = r.
Proof. induction p as [|c p IH]; [reflexivity | exact IH]. Qed.

Lemma string_take_append (p r : string) :
  string_take (String.length p) (p ++ r) = p.
Proof.
  induction p as [|c p IH]; [now destruct r|].
  rewrite append_cons. simpl. now f_equal.
Qed.

Lemma slice_middle (p x r : string) :
  slice (String.length p) (String.length p + String.length x) (p ++ x ++ r) = x.
Proof.
  unfold slice. rewrite string_drop_append.
  replace (String.length p + String.length x - String.length p)%nat
    with (String.length x) by lia.
  apply string_take_append.
Qed.

Lemma find_unfold (sub s : string) :
  find sub s =
    if String.prefix sub s then Some 0%nat
    else match s with
         | "" => None
         | String _ r => option_map S (find sub r)
         end.
Proof. destruct s; reflexivity. Qed.

Lemma find_prefix (sub r : string) : find sub (sub ++ r) = Some 0%nat.
Proof. now rewrite find_unfold, prefix_append. Qed.

(** The first occurrence of a text that starts with [c], behind a text
    without [c]. *)
Lemma find_behind (c : ascii) (sub body rest : string) :
  has_char c body = false ->
  find (String c sub) (body ++ String c sub ++ rest)
  = Some (String.length body).
Proof.
  induction body as [|d body IH]; intros Hc.
  - rewrite append_nil. apply find_prefix.
  - simpl in Hc. apply orb_false_iff in Hc as [Hd Hc].
    rewrite append_cons, find_unfold. simpl String.prefix.
    destruct (ascii_dec c d) as [->|_];
      [rewrite Ascii.eqb_refl in Hd; discriminate|].
    now rewrite (IH Hc).
Qed.

Lemma rstrip_append (s t : string) :
  is_empty (rstrip t) = false -> rstrip (s ++ t) = s ++ rstrip t.
Proof.
  intros Ht. induction s as [|c s IH]; [reflexivity|].
  rewrite !append_cons. simpl. rewrite IH.
  destruct (s ++ rstrip t) eqn:E; [|reflexivity].
  destruct s; [|discriminate E]. rewrite append_nil in E.
  rewrite E in Ht. discriminate.
Qed.

Lemma strip_fenced (body : string) :
  strip (fence_json ++ body ++ fence) = fence_json ++ body ++ fence.
Proof.
  unfold strip. change (lstrip (fence_json ++ body ++ fence))
    with (fence_json ++ body ++ fence).
  assert (rstrip (body ++ fence) = body ++ fence) as Hb
    by (rewrite rstrip_append; reflexivity).
  rewrite rstrip_append; rewrite Hb; [reflexivity|].
  destruct body; reflexivity.
Qed.

(** X22.  A reply that consists of a code fence marked json, a body
    without backquote and the closing fence yields the body without its
    surrounding white space, provided that this is a text from an opening
    to a closing brace. *)
Theorem json_text_of_fenced_reply (body : string) :
  has_char "`" body = false ->
  String.prefix "{" (strip body) = true ->
  ends_with "}" (strip body) = true ->
  json_text (fence_json ++ body ++ fence) = strip body.
Proof.
  intros Hb Hopen Hclose. unfold json_text. rewrite strip_fenced.
  assert (unfence (fence_json ++ body ++ fence) = strip body) as ->.
  { unfold unfence. rewrite contains_here.
    rewrite (find_prefix fence_json (body ++ fence)).
    cbn [Nat.add]. unfold find_from.
    assert (String.length (fence_json ++ body ++ fence)
            = (7 + (String.length body + 3))%nat) as Hlen
      by (rewrite !length_append; reflexivity).
    rewrite Hlen.
    destruct (Nat.leb_spec 7 (7 + (String.length body + 3))); [|lia].
    replace (string_drop 7 (fence_json ++ body ++ fence))
      with (body ++ fence ++ "")
      by (rewrite append_nil_r; symmetry;
          exact (string_drop_append fence_json (body ++ fence))).
    unfold fence. rewrite (find_behind "`" "``" body "" Hb).
    cbn [option_map]. f_equal.
    exact (slice_middle fence_json body fence). }
  unfold braces. now rewrite Hopen, Hclose.
Qed.

Lemma json_text_of_fenced_reply_witness :
  json_text fenced_reply = "{'best_slot_id': 's1'}".
Proof.
  refine (json_text_of_fenced_reply fenced_body _ _ _);
    vm_compute; reflexivity.
Defined.

Lemma prefix_true (a b : string) :
  String.prefix a b = true -> exists r, b = a ++ r.
Proof.
  revert b. induction a as [|c a IH]; intros b H; [now exists b|].
  destruct b as [|d b]; [discriminate|]. simpl in H.
  destruct (ascii_dec c d) as [->|]; [|discriminate].
  destruct (IH b H) as [r ->]. now exists r.
Qed.

Lemma contains_true_iff (x s : string) :
  contains x s = true <-> substring_of x s.
Proof.
  split.
  - induction s as [|c s IH]; rewrite contains_unfold, orb_true_iff.
    + intros [H | H]; [|discriminate].
      destruct (prefix_true _ _ H) as [r ->]. now exists "", r.
    + intros [H | H].
      * destruct (prefix_true _ _ H) as [r ->]. now exists "", r.
      * destruct (IH H) as (pre & post & ->). now exists (String c pre), post.
  - intros (pre & post & ->). apply contains_append.
Qed.

Lemma contains_false_substring (x s t : string) :
  contains x t = false -> substring_of s t -> contains x s = false.
Proof.
  intros Ht Hs. apply not_true_iff_false. intros Hx.
  apply not_true_iff_false in Ht. apply Ht, contains_true_iff.
  eapply substring_of_trans; [apply contains_true_iff, Hx | exact Hs].
Qed.

Lemma no_fence_unfence (s : string) :
  contains fence s = false -> unfence s = s.
Proof.
  intros H. unfold unfence. rewrite H.
  destruct (contains fence_json s) eqn:E; [|reflexivity].
  exfalso. apply not_true_iff_false in H. apply H, contains_true_iff.
  eapply substring_of_trans; [|apply contains_true_iff, E].
  exists "", "json". reflexivity.
Qed.

Lemma lstrip_append (pre : string) (c : ascii) (r : string) :
  is_space c = false -> lstrip (pre ++ String c r) = lstrip pre ++ String c r.
Proof.
  intros Hc. induction pre as [|d pre IH].
  - rewrite append_nil. simpl. now rewrite Hc.
  - rewrite append_cons. simpl. destruct (is_space d); [exact IH | reflexivity].
Qed.

Lemma rstrip_cons (c : ascii) (post : string) :
  is_space c = false -> rstrip (String c post) = String c (rstrip post).
Proof. intros Hc. simpl. rewrite Hc. now destruct (rstrip post). Qed.

Lemma has_char_lstrip (c : ascii) (s : string) :
  has_char c s = false -> has_char c (lstrip s) = false.
Proof.
  induction s as [|d s IH]; [easy|]. simpl. intros H.
  apply orb_false_iff in H as [Hd Hs].
  destruct (is_space d); [now apply IH | simpl; now rewrite Hd, Hs].
Qed.

Lemma has_char_rstrip (c : ascii) (s : string) :
  has_char c s = false -> has_char c (rstrip s) = false.
Proof.
  induction s as [|d s IH]; [easy|]. simpl. intros H.
  apply orb_false_iff in H as [Hd Hs]. specialize (IH Hs).
  destruct (rstrip s) as [|e r] eqn:E.
  - destruct (is_space d); simpl; [reflexivity | now rewrite Hd].
  - simpl in *. now rewrite Hd, IH.
Qed.

Lemma rfind_none (c : ascii) (s : string) :
  has_char c s = false -> rfind (String c "") s = None.
Proof.
  induction s as [|d s IH]; [reflexivity|]. simpl. intros H.
  apply orb_false_iff in H as [Hd Hs]. rewrite (IH Hs).
  destruct (ascii_dec c d) as [->|_]; [|reflexivity].
  rewrite Ascii.eqb_refl in Hd. discriminate.
Qed.

(** The last occurrence of a character, in front of a text without it. *)
Lemma rfind_last (c : ascii) (u post : string) :
  has_char c post = false ->
  rfind (String c "") (u ++ String c post) = Some (String.length u).
Proof.
  intros Hp. induction u as [|a u IH].
  - rewrite append_nil. simpl. rewrite (rfind_none c post Hp).
    destruct (ascii_dec c c) as [_|Hne]; [|now elim Hne].
    now destruct post.
  - rewrite append_cons. simpl rfind. now rewrite IH.
Qed.

Lemma ends_with_has_char (c : ascii) (s : string) :
  ends_with (String c "") s = true -> has_char c s = true.
Proof.
  induction s as [|d s IH]; [discriminate|]. simpl.
  rewrite !orb_true_iff. intros [H | H]; [|right; now apply IH].
  left. apply andb_true_iff in H as [H _]. now rewrite Ascii.eqb_sym.
Qed.

Lemma ends_with_append (c : ascii) (u post : string) :
  ends_with (String c "") (u ++ post) = true -> post <> "" ->
  has_char c post = true.
Proof.
  intros H Hne. induction u as [|a u IH].
  - rewrite append_nil in H. now apply ends_with_has_char.
  - rewrite append_cons in H. simpl in H.
    apply orb_true_iff in H as [H | H]; [|now apply IH].
    apply andb_true_iff in H as [_ H].
    destruct (u ++ post) eqn:E; [|discriminate H].
    destruct u; [|discriminate E]. rewrite append_nil in E.
    now elim Hne.
Qed.

Lemma prefix_head (c d : ascii) (r : string) :
  String.prefix (String c "") (String d r) = true -> d = c.
Proof. simpl. now destruct (ascii_dec c d). Qed.

(** X23.  A reply without code fence that holds one text from an opening
    to a closing brace, behind words without opening brace and in front
    of words without closing brace, yields exactly that text. *)
Theorem json_text_of_chatty_reply (pre mid post : string) :
  contains fence (pre ++ String "{" (mid ++ "}") ++ post) = false ->
  has_char "{" pre = false ->
  has_char "}" post = false ->
  json_text (pre ++ String "{" (mid ++ "}") ++ post) = String "{" (mid ++ "}").
Proof.
  intros Hfence Hpre Hpost.
  set (obj := String "{" (mid ++ "}")).
  set (P := lstrip pre). set (Q := rstrip post).
  assert (has_char "{" P = false) as HP by now apply has_char_lstrip.
  assert (has_char "}" Q = false) as HQ by now apply has_char_rstrip.
  assert (strip (pre ++ obj ++ post) = P ++ obj ++ Q) as Hstrip.
  { unfold strip, obj. rewrite append_cons, lstrip_append by reflexivity.
    fold P. rewrite append_assoc, append_cons, append_nil.
    replace (P ++ String "{" (mid ++ String "}" post))
      with ((P ++ String "{" mid) ++ String "}" post)
      by now rewrite append_assoc, append_cons.
    rewrite rstrip_append by (rewrite rstrip_cons; reflexivity).
    rewrite rstrip_cons by reflexivity. fold Q.
    rewrite append_assoc, !append_cons, append_assoc, append_cons, append_nil.
    reflexivity. }
  unfold json_text. rewrite Hstrip.
  rewrite no_fence_unfence
    by (eapply contains_false_substring;
        [exact Hfence | rewrite <- Hstrip; apply strip_substring]).
  unfold braces.
  destruct (String.prefix "{" (P ++ obj ++ Q)
            && ends_with "}" (P ++ obj ++ Q)) eqn:Hshape.
  - apply andb_true_iff in Hshape as [Hopen Hclose].
    assert (P = "") as ->.
    { destruct P as [|d P']; [reflexivity|]. exfalso.
      rewrite append_cons in Hopen. apply prefix_head in Hopen as ->.
      simpl in HP. discriminate HP. }
    assert (Q = "") as ->.
    { destruct Q as [|d Q'] eqn:EQ; [reflexivity|]. exfalso.
      rewrite <- append_assoc in Hclose.
      pose proof (ends_with_append "}" _ _ Hclose ltac:(discriminate)) as Hc.
      rewrite Hc in HQ. discriminate. }
    now rewrite append_nil, append_nil_r.
  - clear Hshape.
    assert (P ++ obj ++ Q = (P ++ String "{" mid) ++ String "}" Q) as Hsplit.
    { unfold obj. rewrite (append_assoc P). f_equal.
      rewrite !append_cons. f_equal. now rewrite append_assoc. }
    assert (contains "{" (P ++ obj ++ Q) = true) as ->
      by exact (contains_append P "{" ((mid ++ "}") ++ Q)).
    assert (contains "}" (P ++ obj ++ Q) = true) as ->
      by (rewrite Hsplit;
          exact (contains_append (P ++ String "{" mid) "}" Q)).
    cbn [andb].
    assert (find "{" (P ++ obj ++ Q) = Some (String.length P)) as ->
      by exact (find_behind "{" "" P ((mid ++ "}") ++ Q) HP).
    assert (rfind "}" (P ++ obj ++ Q)
            = Some (String.length (P ++ String "{" mid))) as ->
      by (rewrite Hsplit; apply rfind_last, HQ).
    replace (String.length (P ++ String "{" mid) + 1)%nat
      with (String.length P + String.length obj)%nat.
    + apply slice_middle.
    + unfold obj. rewrite !length_append. simpl.
      rewrite length_append. simpl. lia.
Qed.

Lemma json_text_of_chatty_reply_witness :
  json_text chatty_reply = "{'best_slot_id': 's1'}".
Proof.
  refine (json_text_of_chatty_reply "Here is the JSON: "
            "'best_slot_id': 's1'" " Hope it helps!" _ _ _);
    vm_compute; reflexivity.
Defined.

(** A reply that closes a brace before it opens one yields the empty
    text, which no parser accepts. *)
Example json_text_of_crossed_braces : json_text "} then {" = "".
Proof. vm_compute. reflexivity. Qed.

(** ** The message for the user *)

Lemma rstrip_idempotent (s : string) : rstrip (rstrip s) = rstrip s.
Proof.
  induction s as [|c s IH]; [reflexivity|]. simpl.
  destruct (rstrip s) as [|d r] eqn:E.
  - destruct (is_space c) eqn:Hc; [reflexivity|]. simpl. now rewrite Hc.
  - change (rstrip (String c (String d r)))
      with (match rstrip (String d r) with
            | "" => if is_space c then "" else String c ""
            | String a r' => String c (String a r')
            end).
    now rewrite IH.
Qed.

Lemma lstrip_rstrip_lstrip (s : string) :
  lstrip (rstrip (lstrip s)) = rstrip (lstrip s).
Proof.
  destruct (lstrip s) as [|c r] eqn:E; [reflexivity|].
  pose proof (lstrip_head s c r E) as Hc.
  destruct (rstrip_cons_nonspace c r Hc) as [r' ->]. simpl. now rewrite Hc.
Qed.

Lemma strip_idempotent (s : string) : strip (strip s) = strip s.
Proof.
  unfold strip. now rewrite lstrip_rstrip_lstrip, rstrip_idempotent.
Qed.

Lemma rstrip_last (s u : string) (c : ascii) :
  rstrip s = u ++ String c "" -> is_space c = false.
Proof.
  revert u. induction s as [|d s IH]; intros u H.
  - destruct u; discriminate H.
  - simpl in H. destruct (rstrip s) as [|a r] eqn:E.
    + destruct (is_space d) eqn:Hd.
      * destruct u; discriminate H.
      * destruct u as [|b u]; [now injection H as <-|].
        rewrite append_cons in H. injection H as _ H. destruct u; discriminate.
    + destruct u as [|b u]; [rewrite append_nil in H; discriminate H|].
      rewrite append_cons in H. injection H as _ H. now apply (IH u).
Qed.

(** X24.  The message sent to the chat is the model's reply without the
    white space around it: the second [strip] changes nothing, and the
    message neither starts nor ends with a white-space character.  A
    failure of the call is answered with status 400. *)
Theorem user_message_is_trimmed (response_text e : string) :
  generate_user_message_endpoint (inr response_text)
  = Http200 {| message := strip response_text |}
  /\ (forall c r, strip response_text = String c r -> is_space c = false)
  /\ (forall u c, strip response_text = u ++ String c "" -> is_space c = false)
  /\ generate_user_message_endpoint (inl e)
     = HttpError 400 ("Failed to generate text response from Gemini: " ++ e).
Proof.
  split; [|split; [|split]].
  - unfold generate_user_message_endpoint, generate_user_message. simpl.
    now rewrite strip_idempotent.
  - intros c r H. unfold strip in H.
    destruct (lstrip response_text) as [|d t] eqn:E; [discriminate H|].
    pose proof (lstrip_head _ _ _ E) as Hd.
    destruct (rstrip_cons_nonspace d t Hd) as [t' Ht]. rewrite Ht in H.
    now injection H as <- _.
  - intros u c H. now apply (rstrip_last (lstrip response_text) u c).
  - reflexivity.
Qed.

Example user_message_example :
  generate_user_message_endpoint
    (inr ("  The spot is 150 m away. Reserve it?" ++ nl))
  = Http200 {| message := "The spot is 150 m away. Reserve it?" |}.
Proof. vm_compute. reflexivity. Qed.
